(** * Borland demangler syntax tree (src/demangler_llvm/borland_ast.cpp)

    A shallow embedding of the node classes of the Borland demangler and of
    their printing protocol.  Nodes live behind [std::shared_ptr]: the model
    keeps them in a store indexed by addresses, so that pointer identity,
    sharing and the in-place update of a [NodeArray] are what they are in the
    C++ code.  An output stream is modelled by the characters written to it
    so far. *)

From stdpp Require Import base option list gmap strings.

(** ** Pointers, streams, faults *)

(** An address in the store of nodes. *)
Abbreviation loc := nat.

(** A [std::shared_ptr<Node>]: [None] is [nullptr]. *)
Abbreviation ptr := (option loc).

Abbreviation nullptr := (@None loc).

(** A [std::ostream], as the text it holds. *)
Abbreviation ostream := string.

(** [s << x] *)
Definition put (s : ostream) (x : string) : ostream := s +:+ x.

(** ** Nodes *)

(** [Node::Kind].  borland_ast.cpp names the first six members; the last two
    stand for the kinds of the classes of borland_ast_types.h. *)
Inductive Kind :=
  | KFunction
  | KTemplateNode
  | KName
  | KNestedName
  | KNodeArray
  | KConversionOperator
  | KFunctionType
  | KOtherType.

(** The data members of the concrete classes.  The first six are the classes
    implemented in borland_ast.cpp. *)
Inductive Fields :=
  | FunctionNode (_name : ptr) (_funcNode : ptr)
  | TemplateNode (_name : ptr) (_params : ptr)
  | NameNode (_name : string)
  | NestedNameNode (_super : ptr) (_name : ptr)
  | NodeArray (_nodes : list ptr)
  | ConversionOperatorNode (_type : ptr)
  | FunctionTypeNode (_retType : ptr) (_params : ptr)
  | TypeNode (_left : string) (_right : string).

(** An object: the members of the base class [Node] and those of the
    concrete class. *)
Record Node := mkNode {
  _kind : Kind;
  _has_right : bool;
  fields : Fields
}.

Abbreviation Heap := (list Node).

(** [new T(...)]: the object is placed at an address not in use. *)
Definition new (h : Heap) (n : Node) : Heap * loc := (h ++ [n], length h).

(** [*p]; dereferencing [nullptr] or a dangling address is a fault. *)
Definition deref (h : Heap) (p : ptr) : option Node := l ← p; h !! l.

(** [Node::kind] and [Node::hasRight]. *)
Definition Node_kind (n : Node) : Kind := _kind n.
Definition Node_hasRight (n : Node) : bool := _has_right n.

(** ** The printing protocol *)

(** The three entry points a caller can invoke on a node. *)
Inductive Method := print_ | printLeft_ | printRight_.

Section Methods.
(** A call [p->m(s)] on another node, resolved by the store. *)
Variable call : Method → ptr → ostream → option ostream.

(** [Node::print] *)
Definition Node_print (node : Node) (this : ptr) (s : ostream) : option ostream :=
  s1 ← call printLeft_ this s;
  if _has_right node then call printRight_ this s1 else Some s1.

(** [Node::printRight], the default. *)
Definition Node_printRight (s : ostream) : option ostream := Some s.

(** [FunctionNode::printLeft] *)
Definition FunctionNode_printLeft (name funcNode : ptr) (s : ostream) : option ostream :=
  s1 ← call printLeft_ funcNode s;
  s2 ← call print_ name s1;
  call printRight_ funcNode s2.

(** [TemplateNode::printLeft] *)
Definition TemplateNode_printLeft (name params : ptr) (s : ostream) : option ostream :=
  s1 ← call print_ name s;
  let s2 := put s1 "<" in
  s3 ← match params with
       | Some _ => call print_ params s2
       | None => Some s2
       end;
  Some (put s3 ">").

(** [NameNode::printLeft] *)
Definition NameNode_printLeft (name : string) (s : ostream) : option ostream :=
  Some (put s name).

(** [NestedNameNode::printLeft] *)
Definition NestedNameNode_printLeft (super name : ptr) (s : ostream) : option ostream :=
  s1 ← call print_ super s;
  call print_ name (put s1 "::").

(** The loop of [NodeArray::printLeft] over the elements after the first. *)
Fixpoint NodeArray_printOthers (others : list ptr) (s : ostream) : option ostream :=
  match others with
  | [] => Some s
  | current :: others' =>
      s1 ← call print_ current (put s ", ");
      NodeArray_printOthers others' s1
  end.

(** [NodeArray::printLeft] *)
Definition NodeArray_printLeft (nodes : list ptr) (s : ostream) : option ostream :=
  match nodes with
  | [] => Some s
  | first :: others =>
      s1 ← call print_ first s;
      NodeArray_printOthers others s1
  end.

(** [ConversionOperatorNode::printLeft] *)
Definition ConversionOperatorNode_printLeft (type : ptr) (s : ostream) : option ostream :=
  call print_ type (put s "operator ").

(** Modelled from the spec: [FunctionTypeNode::printLeft] is implemented in
    borland_ast_types.cpp, outside borland_ast.cpp.  The spec gives the node
    a return type and a parameter array, and gives the rendering of a
    function as [ReturnType Name(Params)]: the left fragment is the return
    type and the blank before the name. *)
Definition FunctionTypeNode_printLeft (retType : ptr) (s : ostream) : option ostream :=
  s1 ← call print_ retType s;
  Some (put s1 " ").

(** Modelled from the spec: [FunctionTypeNode::printRight], outside
    borland_ast.cpp as well; the right fragment is the parameter list between
    parentheses. *)
Definition FunctionTypeNode_printRight (params : ptr) (s : ostream) : option ostream :=
  s1 ← call print_ params (put s "(");
  Some (put s1 ")").

(** Virtual dispatch of [printLeft] on the dynamic class of the object.  A
    [TypeNode] stands for a leaf type class of borland_ast_types.cpp; what
    its two overrides write is carried by the object. *)
Definition dispatch_printLeft (node : Node) (s : ostream) : option ostream :=
  match fields node with
  | FunctionNode name funcNode => FunctionNode_printLeft name funcNode s
  | TemplateNode name params => TemplateNode_printLeft name params s
  | NameNode name => NameNode_printLeft name s
  | NestedNameNode super name => NestedNameNode_printLeft super name s
  | NodeArray nodes => NodeArray_printLeft nodes s
  | ConversionOperatorNode type => ConversionOperatorNode_printLeft type s
  | FunctionTypeNode retType _ => FunctionTypeNode_printLeft retType s
  | TypeNode l _ => Some (put s l)
  end.

(** Virtual dispatch of [printRight]: no class of borland_ast.cpp overrides
    it. *)
Definition dispatch_printRight (node : Node) (s : ostream) : option ostream :=
  match fields node with
  | FunctionTypeNode _ params => FunctionTypeNode_printRight params s
  | TypeNode _ r => Some (put s r)
  | _ => Node_printRight s
  end.

(** One call on the object at [this]. *)
Definition invoke_body (h : Heap) (m : Method) (this : ptr) (s : ostream) : option ostream :=
  node ← deref h this;
  match m with
  | print_ => Node_print node this s
  | printLeft_ => dispatch_printLeft node s
  | printRight_ => dispatch_printRight node s
  end.
End Methods.

(** Calls nested at most [depth] deep; [None] is a fault (a null or dangling
    pointer was dereferenced) or a call chain deeper than [depth]. *)
Fixpoint invoke (h : Heap) (depth : nat) (m : Method) (this : ptr) (s : ostream)
  : option ostream :=
  match depth with
  | O => None
  | S d => invoke_body (invoke h d) h m this s
  end.

Definition print (h : Heap) (depth : nat) : ptr → ostream → option ostream :=
  invoke h depth print_.
Definition printLeft (h : Heap) (depth : nat) : ptr → ostream → option ostream :=
  invoke h depth printLeft_.
Definition printRight (h : Heap) (depth : nat) : ptr → ostream → option ostream :=
  invoke h depth printRight_.

(** [Node::str]: a fresh [std::stringstream], [print] into it, its text. *)
Definition Node_str (h : Heap) (depth : nat) (this : ptr) : option string :=
  let ss : ostream := "" in
  print h depth this ss.

(** ** Construction *)

(** Modelled from the spec: class [Context], declared in context.h and
    implemented in context.cpp, outside borland_ast.cpp.  The spec describes
    a cache that interns plain names under their literal string and nested
    names under the identity pair of their two children. *)
Record Context := mkContext {
  names : gmap string loc;
  nestedNames : gmap (ptr * ptr) loc
}.

Definition Context_empty : Context := mkContext ∅ ∅.

(** Modelled from the spec: [getName(s) -> Node?], absent is [nullptr]. *)
Definition Context_getName (c : Context) (name : string) : ptr :=
  names c !! name.

(** Modelled from the spec: [getNestedName(super, name) -> Node?]. *)
Definition Context_getNestedName (c : Context) (super name : ptr) : ptr :=
  nestedNames c !! (super, name).

(** [NestedNameNode::super] and [NestedNameNode::name]. *)
Definition NestedNameNode_super (n : Node) : ptr :=
  match fields n with NestedNameNode super _ => super | _ => nullptr end.
Definition NestedNameNode_name (n : Node) : ptr :=
  match fields n with NestedNameNode _ name => name | _ => nullptr end.

(** Modelled from the spec: [addName(node)] registers the node under its
    literal string. *)
Definition Context_addName (h : Heap) (c : Context) (name : ptr) : Context :=
  match name with
  | Some l =>
      match fields <$> h !! l with
      | Some (NameNode s) => mkContext (<[s := l]> (names c)) (nestedNames c)
      | _ => c
      end
  | None => c
  end.

(** Modelled from the spec: [addNestedName(node)] registers the node under
    the pair of its children, read through its two accessors. *)
Definition Context_addNestedName (h : Heap) (c : Context) (name : ptr) : Context :=
  match name with
  | Some l =>
      match h !! l with
      | Some n =>
          match fields n with
          | NestedNameNode _ _ =>
              mkContext (names c)
                (<[(NestedNameNode_super n, NestedNameNode_name n) := l]> (nestedNames c))
          | _ => c
          end
      | None => c
      end
  | None => c
  end.

(** The objects allocated so far and the context handed to the factories. *)
Record State := mkState {
  heap : Heap;
  context : Context
}.

Definition State_empty : State := mkState [] Context_empty.

(** [NameNode::create] *)
Definition NameNode_create (name : string) (st : State) : State * ptr :=
  let type := Context_getName (context st) name in
  match type with
  | Some _ => (st, type)
  | None =>
      let (h, l) := new (heap st) (mkNode KName false (NameNode name)) in
      let newName : ptr := Some l in
      (mkState h (Context_addName h (context st) newName), newName)
  end.

(** [NestedNameNode::create] *)
Definition NestedNameNode_create (super name : ptr) (st : State) : State * ptr :=
  let type := Context_getNestedName (context st) super name in
  match type with
  | Some _ => (st, type)
  | None =>
      let (h, l) := new (heap st) (mkNode KNestedName false (NestedNameNode super name)) in
      let newName : ptr := Some l in
      (mkState h (Context_addNestedName h (context st) newName), newName)
  end.

(** [FunctionNode::create] *)
Definition FunctionNode_create (name funcType : ptr) (h : Heap) : Heap * ptr :=
  let (h', l) := new h (mkNode KFunction false (FunctionNode name funcType)) in
  (h', Some l).

Section DefaultArgument.
(** The constructors of [TemplateNode], [NodeArray] and
    [ConversionOperatorNode] leave the second argument of [Node::Node] to
    its default, which borland_ast.h declares. *)
Variable has_right_side : bool.

(** [TemplateNode::create] *)
Definition TemplateNode_create (name params : ptr) (h : Heap) : Heap * ptr :=
  let (h', l) := new h (mkNode KTemplateNode has_right_side (TemplateNode name params)) in
  (h', Some l).

(** [NodeArray::create] *)
Definition NodeArray_create (h : Heap) : Heap * ptr :=
  let (h', l) := new h (mkNode KNodeArray has_right_side (NodeArray [])) in
  (h', Some l).

(** [ConversionOperatorNode::create]; the context is not used. *)
Definition ConversionOperatorNode_create (type : ptr) (st : State) : State * ptr :=
  let (h', l) :=
    new (heap st) (mkNode KConversionOperator has_right_side (ConversionOperatorNode type)) in
  (mkState h' (context st), Some l).
End DefaultArgument.

(** [NodeArray::addNode]: [_nodes.push_back(node)] on the object at [this]. *)
Definition NodeArray_addNode (this : ptr) (node : ptr) (h : Heap) : option Heap :=
  l ← this;
  n ← h !! l;
  match fields n with
  | NodeArray nodes =>
      Some (<[l := mkNode (_kind n) (_has_right n) (NodeArray (nodes ++ [node]))]> h)
  | _ => None
  end.

(** A run of [addNode] calls on one array. *)
Fixpoint NodeArray_addNodes (this : ptr) (nodes : list ptr) (h : Heap) : option Heap :=
  match nodes with
  | [] => Some h
  | node :: rest => h' ← NodeArray_addNode this node h; NodeArray_addNodes this rest h'
  end.

(** The result of a call that may throw. *)
Inductive outcome (A : Type) :=
  | Returns (a : A)
  | Throws_out_of_range.
Arguments Returns {A} a.
Arguments Throws_out_of_range {A}.

(** [std::vector::at]: bounds-checked access. *)
Definition vector_at (v : list ptr) (i : nat) : outcome ptr :=
  match v !! i with
  | Some x => Returns x
  | None => Throws_out_of_range
  end.

(** [NodeArray::empty], [NodeArray::size] and [NodeArray::get] on the member
    [_nodes]. *)
Definition NodeArray_empty (_nodes : list ptr) : bool :=
  match _nodes with [] => true | _ => false end.
Definition NodeArray_size (_nodes : list ptr) : nat := length _nodes.
Definition NodeArray_get (_nodes : list ptr) (i : nat) : outcome ptr :=
  if decide (i < NodeArray_size _nodes) then vector_at _nodes i else Returns nullptr.

(** ** Qualifiers *)

Record Qualifiers := mkQualifiers {
  _isVolatile : bool;
  _isConst : bool
}.

Definition Qualifiers_isVolatile (q : Qualifiers) : bool := _isVolatile q.
Definition Qualifiers_isConst (q : Qualifiers) : bool := _isConst q.

(** [Qualifiers::printSpaceL] *)
Definition Qualifiers_printSpaceL (q : Qualifiers) (s : ostream) : ostream :=
  let s1 := if _isVolatile q then put s " volatile" else s in
  if _isConst q then put s1 " const" else s1.

(** [Qualifiers::printSpaceR] *)
Definition Qualifiers_printSpaceR (q : Qualifiers) (s : ostream) : ostream :=
  let s1 := if _isVolatile q then put s "volatile " else s in
  if _isConst q then put s1 "const " else s1.

(** ** The factories as transitions *)

(** One call of the construction interface: the factories and [addNode] of
    borland_ast.cpp, and the allocation of an object of a class implemented
    elsewhere. *)
Inductive step (d : bool) : State → State → Prop :=
  | step_NameNode name st :
      step d st (NameNode_create name st).1
  | step_NestedNameNode super name st :
      step d st (NestedNameNode_create super name st).1
  | step_FunctionNode name funcType st :
      step d st (mkState (FunctionNode_create name funcType (heap st)).1 (context st))
  | step_TemplateNode name params st :
      step d st (mkState (TemplateNode_create d name params (heap st)).1 (context st))
  | step_NodeArray st :
      step d st (mkState (NodeArray_create d (heap st)).1 (context st))
  | step_ConversionOperatorNode type st :
      step d st (ConversionOperatorNode_create d type st).1
  | step_addNode this node st h :
      NodeArray_addNode this node (heap st) = Some h →
      step d st (mkState h (context st))
  | step_foreign n st :
      step d st (mkState (new (heap st) n).1 (context st)).

(** Every entry of the context leads to an object that carries its key. *)
Definition State_wf (st : State) : Prop :=
  (∀ s l, names (context st) !! s = Some l →
          fields <$> heap st !! l = Some (NameNode s)) ∧
  (∀ a b l, nestedNames (context st) !! (a, b) = Some l →
            fields <$> heap st !! l = Some (NestedNameNode a b)).

(** What was interned stays interned. *)
Definition Context_le (c c' : Context) : Prop :=
  names c ⊆ names c' ∧ nestedNames c ⊆ nestedNames c'.

(** Objects other than arrays are never written to again. *)
Definition Heap_le (h h' : Heap) : Prop :=
  ∀ l n, h !! l = Some n →
    (∀ nodes, fields n ≠ NodeArray nodes) → h' !! l = Some n.

Definition is_NodeArray (n : Node) : bool :=
  match fields n with NodeArray _ => true | _ => false end.

(** The text of a sequence, as the spec words it: the items in order with
    [", "] between consecutive ones. *)
Definition joined (items : list string) : string := String.concat ", " items.

(** A call leaves what is already in the stream in place. *)
Definition shifts (call : Method → ptr → ostream → option ostream) : Prop :=
  ∀ m p s t, call m p (s +:+ t) = String.append s <$> call m p t.

(** [call'] succeeds wherever [call] does, with the same result. *)
Definition call_le (call call' : Method → ptr → ostream → option ostream) : Prop :=
  ∀ m p s s', call m p s = Some s' → call' m p s = Some s'.

(** Every object of [h] is found unchanged in [h']. *)
Definition deref_le (h h' : Heap) : Prop :=
  ∀ p n, deref h p = Some n → deref h' p = Some n.

(** The function of the spec's example: return type [int], name [foo] and
    the one-element parameter list [int].  The two objects of classes of
    borland_ast_types.cpp are allocated directly, the others come from their
    factories. *)
Definition int_foo_int (d : bool) : option (Heap * ptr) :=
  let (h1, int) := new [] (mkNode KOtherType false (TypeNode "int" "")) in
  let (h2, params) := NodeArray_create d h1 in
  h3 ← NodeArray_addNode params (Some int) h2;
  let (h4, funcType) :=
    new h3 (mkNode KFunctionType true (FunctionTypeNode (Some int) params)) in
  let (st5, name) := NameNode_create "foo" (mkState h4 Context_empty) in
  Some (FunctionNode_create name (Some funcType) (heap st5)).

(** The call [p->m(s)] returns, and what it writes to a fresh stream is
    [out]: some bound on the depth of calls is enough for it. *)
Definition writes (h : Heap) (m : Method) (p : ptr) (out : string) : Prop :=
  ∃ depth, invoke h depth m p "" = Some out.

(** The classes that bring their own [printRight]; none of them is a class
    of borland_ast.cpp. *)
Definition overrides_printRight (n : Node) : bool :=
  match fields n with
  | FunctionTypeNode _ _ | TypeNode _ _ => true
  | _ => false
  end.

(** Two objects with the same members, up to the flag where it cannot
    matter. *)
Definition same_members (n n' : Node) : Prop :=
  fields n = fields n' ∧
  (overrides_printRight n = true → _has_right n = _has_right n').

(** A child pointer that the class dereferences without a test is null. *)
Definition null_child (f : Fields) : Prop :=
  match f with
  | FunctionNode name funcNode => name = nullptr ∨ funcNode = nullptr
  | TemplateNode name _ => name = nullptr
  | NameNode _ => False
  | NestedNameNode super name => super = nullptr ∨ name = nullptr
  | NodeArray nodes => nullptr ∈ nodes
  | ConversionOperatorNode type => type = nullptr
  | FunctionTypeNode _ _ | TypeNode _ _ => False
  end.

(** [p] points to an object allocated before address [l]. *)
Definition older (l : loc) (p : ptr) : Prop := ∃ l', p = Some l' ∧ l' < l.

(** The children of an object at address [l] were all allocated before it
    and none is null, the parameter array of a template apart. *)
Definition built_before (l : loc) (f : Fields) : Prop :=
  match f with
  | FunctionNode name funcNode => older l name ∧ older l funcNode
  | TemplateNode name params => older l name ∧ (params = nullptr ∨ older l params)
  | NameNode _ => True
  | NestedNameNode super name => older l super ∧ older l name
  | NodeArray nodes => Forall (older l) nodes
  | ConversionOperatorNode type => older l type
  | FunctionTypeNode retType params => older l retType ∧ older l params
  | TypeNode _ _ => True
  end.

(** Every object of the store was built after its children. *)
Definition well_built (h : Heap) : Prop :=
  ∀ l n, h !! l = Some n → built_before l (fields n).

(** What an object may become while the program runs: it keeps its kind
    and its flag; an array keeps its elements and may gain some at the end;
    an object of any other class keeps its members. *)
Definition Node_le (n n' : Node) : Prop :=
  _kind n' = _kind n ∧ _has_right n' = _has_right n ∧
  match fields n with
  | NodeArray nodes => ∃ more, fields n' = NodeArray (nodes ++ more)
  | f => fields n' = f
  end.

(** [p] points to an object of the store that ranks below the object at
    [l]. *)
Definition below (rank : loc → nat) (h : Heap) (l : loc) (p : ptr) : Prop :=
  ∃ l', p = Some l' ∧ is_Some (h !! l') ∧ rank l' < rank l.

(** Every child of an object at address [l] is an object of the store that
    ranks below it, the parameter array of a template apart, which may be
    null. *)
Definition children_below (rank : loc → nat) (h : Heap) (l : loc) (f : Fields) : Prop :=
  match f with
  | FunctionNode name funcNode => below rank h l name ∧ below rank h l funcNode
  | TemplateNode name params =>
      below rank h l name ∧ (params = nullptr ∨ below rank h l params)
  | NameNode _ => True
  | NestedNameNode super name => below rank h l super ∧ below rank h l name
  | NodeArray nodes => Forall (below rank h l) nodes
  | ConversionOperatorNode type => below rank h l type
  | FunctionTypeNode retType params => below rank h l retType ∧ below rank h l params
  | TypeNode _ _ => True
  end.

(** The store is a forest under [rank]: no null or dangling child, and no
    way back from a child to its parent. *)
Definition ranked (rank : loc → nat) (h : Heap) : Prop :=
  ∀ l n, h !! l = Some n → children_below rank h l (fields n).

(** ** Strings and streams *)

Lemma append_assoc (s1 s2 s3 : string) : (s1 +:+ s2) +:+ s3 = s1 +:+ (s2 +:+ s3).
Proof.
  induction s1 as [|a s1 IH]; [reflexivity|].
  change (String a ((s1 +:+ s2) +:+ s3) = String a (s1 +:+ (s2 +:+ s3))).
  by rewrite IH.
Qed.

Lemma append_nil_r (s : string) : s +:+ "" = s.
Proof.
  induction s as [|a s IH]; [reflexivity|].
  change (String a (s +:+ "") = String a s). by rewrite IH.
Qed.

Lemma append_nil_l (s : string) : "" +:+ s = s.
Proof. reflexivity. Qed.

Lemma put_shift (s t x : string) : put (s +:+ t) x = s +:+ put t x.
Proof. unfold put. apply append_assoc. Qed.

(** ** The store under the factories *)

Lemma new_lookup_old h n l x :
  h !! l = Some x → (new h n).1 !! l = Some x.
Proof. intros H. simpl. by apply lookup_app_l_Some. Qed.

Lemma new_lookup_new h n : (new h n).1 !! (new h n).2 = Some n.
Proof. unfold new. cbn [fst snd]. by apply list_lookup_middle. Qed.

Lemma new_fresh h n x : h !! (new h n).2 = Some x → False.
Proof. simpl. intros H%lookup_lt_Some. lia. Qed.

Lemma Heap_le_refl h : Heap_le h h.
Proof. by intros l n. Qed.

Lemma Heap_le_new h n : Heap_le h (new h n).1.
Proof. intros l x H _. by apply new_lookup_old. Qed.

Lemma Heap_le_addNode this node h h' :
  NodeArray_addNode this node h = Some h' → Heap_le h h'.
Proof.
  unfold NodeArray_addNode. intros H l n Hl Hn.
  destruct this as [a|]; simpl in H; [|done].
  destruct (h !! a) as [na|] eqn:Ha; simpl in H; [|done].
  destruct (fields na) as [| | | |nodes| | |] eqn:Hf; try done.
  injection H as <-.
  destruct (decide (a = l)) as [->|Hne].
  - assert (na = n) as -> by congruence. by destruct (Hn nodes).
  - by rewrite list_lookup_insert_ne.
Qed.

Lemma State_wf_Heap_le h h' c :
  Heap_le h h' → State_wf (mkState h c) → State_wf (mkState h' c).
Proof.
  intros Hle [Hn Hnn]. split; simpl in *.
  - intros s l Hs. specialize (Hn s l Hs).
    destruct (h !! l) as [n|] eqn:Hl; simpl in Hn; [|done].
    injection Hn as Hn. rewrite (Hle l n Hl); [simpl; by rewrite Hn|].
    intros nodes. by rewrite Hn.
  - intros a b l Hs. specialize (Hnn a b l Hs).
    destruct (h !! l) as [n|] eqn:Hl; simpl in Hnn; [|done].
    injection Hnn as Hnn. rewrite (Hle l n Hl); [simpl; by rewrite Hnn|].
    intros nodes. by rewrite Hnn.
Qed.

Lemma State_wf_empty : State_wf State_empty.
Proof. split; intros; simpl in *; by rewrite lookup_empty in H. Qed.

(** ** The two interning factories *)

Lemma NameNode_create_hit name st l :
  names (context st) !! name = Some l →
  NameNode_create name st = (st, Some l).
Proof. intros H. unfold NameNode_create, Context_getName. by rewrite H. Qed.

Lemma NameNode_create_miss name st :
  names (context st) !! name = None →
  NameNode_create name st =
    (mkState (heap st ++ [mkNode KName false (NameNode name)])
       (mkContext (<[name := length (heap st)]> (names (context st)))
          (nestedNames (context st))),
     Some (length (heap st))).
Proof.
  intros H. unfold NameNode_create, Context_getName. rewrite H.
  unfold new, Context_addName. by rewrite list_lookup_middle.
Qed.

Lemma NestedNameNode_create_hit super name st l :
  nestedNames (context st) !! (super, name) = Some l →
  NestedNameNode_create super name st = (st, Some l).
Proof.
  intros H. unfold NestedNameNode_create, Context_getNestedName. by rewrite H.
Qed.

Lemma NestedNameNode_create_miss super name st :
  nestedNames (context st) !! (super, name) = None →
  NestedNameNode_create super name st =
    (mkState (heap st ++ [mkNode KNestedName false (NestedNameNode super name)])
       (mkContext (names (context st))
          (<[(super, name) := length (heap st)]> (nestedNames (context st)))),
     Some (length (heap st))).
Proof.
  intros H. unfold NestedNameNode_create, Context_getNestedName. rewrite H.
  unfold new, Context_addNestedName. by rewrite list_lookup_middle.
Qed.

Lemma State_wf_NameNode_create name st :
  State_wf st → State_wf (NameNode_create name st).1.
Proof.
  intros Hwf. destruct (names (context st) !! name) as [l|] eqn:Hl.
  { by rewrite (NameNode_create_hit _ _ _ Hl). }
  rewrite (NameNode_create_miss _ _ Hl). destruct Hwf as [Hn Hnn].
  split; simpl.
  - intros s l. rewrite lookup_insert. case_decide as Hs.
    + intros [= <-]. subst s. by rewrite list_lookup_middle.
    + intros H. specialize (Hn s l H).
      destruct (heap st !! l) as [n|] eqn:Hh; [|done].
      by rewrite (lookup_app_l_Some _ _ _ _ Hh).
  - intros a b l H. specialize (Hnn a b l H).
    destruct (heap st !! l) as [n|] eqn:Hh; [|done].
    by rewrite (lookup_app_l_Some _ _ _ _ Hh).
Qed.

Lemma State_wf_NestedNameNode_create super name st :
  State_wf st → State_wf (NestedNameNode_create super name st).1.
Proof.
  intros Hwf. destruct (nestedNames (context st) !! (super, name)) as [l|] eqn:Hl.
  { by rewrite (NestedNameNode_create_hit _ _ _ _ Hl). }
  rewrite (NestedNameNode_create_miss _ _ _ Hl). destruct Hwf as [Hn Hnn].
  split; simpl.
  - intros s l H. specialize (Hn s l H).
    destruct (heap st !! l) as [n|] eqn:Hh; [|done].
    by rewrite (lookup_app_l_Some _ _ _ _ Hh).
  - intros a b l. rewrite lookup_insert. case_decide as Hs.
    + intros [= <-]. injection Hs as <- <-. by rewrite list_lookup_middle.
    + intros H. specialize (Hnn a b l H).
      destruct (heap st !! l) as [n|] eqn:Hh; [|done].
      by rewrite (lookup_app_l_Some _ _ _ _ Hh).
Qed.

Lemma Context_le_refl c : Context_le c c.
Proof. by split. Qed.

Lemma Context_le_trans c1 c2 c3 :
  Context_le c1 c2 → Context_le c2 c3 → Context_le c1 c3.
Proof. intros [] []. split; by etrans. Qed.

Lemma Context_le_NameNode_create name st :
  Context_le (context st) (context (NameNode_create name st).1).
Proof.
  destruct (names (context st) !! name) as [l|] eqn:Hl.
  { rewrite (NameNode_create_hit _ _ _ Hl). apply Context_le_refl. }
  rewrite (NameNode_create_miss _ _ Hl). split; simpl; [|done].
  by apply insert_subseteq.
Qed.

Lemma Context_le_NestedNameNode_create super name st :
  Context_le (context st) (context (NestedNameNode_create super name st).1).
Proof.
  destruct (nestedNames (context st) !! (super, name)) as [l|] eqn:Hl.
  { rewrite (NestedNameNode_create_hit _ _ _ _ Hl). apply Context_le_refl. }
  rewrite (NestedNameNode_create_miss _ _ _ Hl). split; simpl; [done|].
  by apply insert_subseteq.
Qed.

(** The invariant holds in every state the interface can produce. *)
Lemma step_State_wf d st st' : step d st st' → State_wf st → State_wf st'.
Proof.
  destruct 1; intros Hwf.
  - by apply State_wf_NameNode_create.
  - by apply State_wf_NestedNameNode_create.
  - destruct st as [h c]. eapply State_wf_Heap_le; [apply Heap_le_new|done].
  - destruct st as [h c]. eapply State_wf_Heap_le; [apply Heap_le_new|done].
  - destruct st as [h c]. eapply State_wf_Heap_le; [apply Heap_le_new|done].
  - destruct st as [h c]. eapply State_wf_Heap_le; [apply Heap_le_new|done].
  - destruct st as [h0 c]. eapply State_wf_Heap_le; [|done].
    by eapply Heap_le_addNode.
  - destruct st as [h c]. eapply State_wf_Heap_le; [apply Heap_le_new|done].
Qed.

Lemma step_Context_le d st st' :
  step d st st' → Context_le (context st) (context st').
Proof.
  destruct 1; simpl; try apply Context_le_refl.
  - apply Context_le_NameNode_create.
  - apply Context_le_NestedNameNode_create.
Qed.

Lemma steps_State_wf d st st' : rtc (step d) st st' → State_wf st → State_wf st'.
Proof. induction 1; eauto using step_State_wf. Qed.

Lemma steps_Context_le d st st' :
  rtc (step d) st st' → Context_le (context st) (context st').
Proof.
  induction 1; [apply Context_le_refl|].
  eapply Context_le_trans; [by eapply step_Context_le|done].
Qed.

Lemma State_wf_reachable d st : rtc (step d) State_empty st → State_wf st.
Proof. intros H. eapply steps_State_wf; [done|apply State_wf_empty]. Qed.

(** ** Printing appends to the stream *)

Lemma NodeArray_printOthers_shift call others s t :
  shifts call →
  NodeArray_printOthers call others (s +:+ t) =
    String.append s <$> NodeArray_printOthers call others t.
Proof.
  intros Hc. revert t. induction others as [|c others IH]; intros t; [done|].
  simpl. rewrite put_shift, Hc.
  destruct (call print_ c (put t ", ")) as [t1|]; simpl; [apply IH|done].
Qed.

Lemma invoke_body_shift call h : shifts call → shifts (invoke_body call h).
Proof.
  intros Hc m p s t. unfold invoke_body.
  destruct (deref h p) as [node|]; simpl; [|done].
  destruct m.
  - unfold Node_print. rewrite Hc.
    destruct (call printLeft_ p t) as [t1|]; simpl; [|done].
    destruct (_has_right node); [apply Hc|done].
  - unfold dispatch_printLeft.
    destruct (fields node) as [name fn|name params|name|super name|nodes|type|ret params|l r].
    + unfold FunctionNode_printLeft. rewrite Hc.
      destruct (call printLeft_ fn t) as [t1|]; simpl; [|done]. rewrite Hc.
      destruct (call print_ name t1) as [t2|]; simpl; [apply Hc|done].
    + unfold TemplateNode_printLeft. rewrite Hc.
      destruct (call print_ name t) as [t1|]; simpl; [|done]. rewrite put_shift.
      destruct params as [l|]; simpl.
      * rewrite Hc. destruct (call print_ (Some l) (put t1 "<")) as [t2|]; simpl; [|done].
        by rewrite put_shift.
      * by rewrite put_shift.
    + unfold NameNode_printLeft. simpl. by rewrite put_shift.
    + unfold NestedNameNode_printLeft. rewrite Hc.
      destruct (call print_ super t) as [t1|]; simpl; [|done].
      rewrite put_shift. apply Hc.
    + unfold NodeArray_printLeft. destruct nodes as [|first others]; [done|].
      rewrite Hc. destruct (call print_ first t) as [t1|]; simpl; [|done].
      by apply NodeArray_printOthers_shift.
    + unfold ConversionOperatorNode_printLeft. rewrite put_shift. apply Hc.
    + unfold FunctionTypeNode_printLeft. rewrite Hc.
      destruct (call print_ ret t) as [t1|]; simpl; [|done]. by rewrite put_shift.
    + simpl. by rewrite put_shift.
  - unfold dispatch_printRight, Node_printRight.
    destruct (fields node) as [name fn|name params|name|super name|nodes|type|ret params|l r];
      try done.
    + unfold FunctionTypeNode_printRight. rewrite put_shift, Hc.
      destruct (call print_ params (put t "(")) as [t1|]; simpl; [|done].
      by rewrite put_shift.
    + simpl. by rewrite put_shift.
Qed.

Lemma invoke_shift h depth : shifts (invoke h depth).
Proof.
  induction depth as [|d IH]; [done|]. simpl. by apply invoke_body_shift.
Qed.

(** What a call writes does not depend on what the stream holds. *)
Lemma invoke_append h depth m p s :
  invoke h depth m p s = String.append s <$> invoke h depth m p "".
Proof. rewrite <-(append_nil_r s) at 1. apply invoke_shift. Qed.

Lemma print_append h depth p s out :
  print h depth p "" = Some out → print h depth p s = Some (s +:+ out).
Proof. unfold print. intros H. by rewrite invoke_append, H. Qed.

(** ** A deeper call budget changes no result *)

Lemma NodeArray_printOthers_mono call call' others s s' :
  call_le call call' →
  NodeArray_printOthers call others s = Some s' →
  NodeArray_printOthers call' others s = Some s'.
Proof.
  intros Hc. revert s. induction others as [|c others IH]; intros s; [done|].
  simpl. destruct (call print_ c (put s ", ")) as [s1|] eqn:H1; simpl; [|done].
  rewrite (Hc _ _ _ _ H1). simpl. apply IH.
Qed.

Lemma invoke_body_mono call call' h h' :
  deref_le h h' → call_le call call' →
  call_le (invoke_body call h) (invoke_body call' h').
Proof.
  intros Hh Hc m p s s'. unfold invoke_body.
  destruct (deref h p) as [node|] eqn:Hd; simpl; [|done].
  rewrite (Hh _ _ Hd). simpl.
  destruct m.
  - unfold Node_print.
    destruct (call printLeft_ p s) as [s1|] eqn:H1; simpl; [|done].
    rewrite (Hc _ _ _ _ H1). simpl. destruct (_has_right node); [apply Hc|done].
  - unfold dispatch_printLeft.
    destruct (fields node) as [name fn|name params|name|super name|nodes|type|ret params|l r].
    + unfold FunctionNode_printLeft.
      destruct (call printLeft_ fn s) as [s1|] eqn:H1; simpl; [|done].
      rewrite (Hc _ _ _ _ H1). simpl.
      destruct (call print_ name s1) as [s2|] eqn:H2; simpl; [|done].
      rewrite (Hc _ _ _ _ H2). simpl. apply Hc.
    + unfold TemplateNode_printLeft.
      destruct (call print_ name s) as [s1|] eqn:H1; simpl; [|done].
      rewrite (Hc _ _ _ _ H1). simpl. destruct params as [l|]; simpl; [|done].
      destruct (call print_ (Some l) (put s1 "<")) as [s2|] eqn:H2; simpl; [|done].
      by rewrite (Hc _ _ _ _ H2).
    + done.
    + unfold NestedNameNode_printLeft.
      destruct (call print_ super s) as [s1|] eqn:H1; simpl; [|done].
      rewrite (Hc _ _ _ _ H1). simpl. apply Hc.
    + unfold NodeArray_printLeft. destruct nodes as [|first others]; [done|].
      destruct (call print_ first s) as [s1|] eqn:H1; simpl; [|done].
      rewrite (Hc _ _ _ _ H1). simpl. by apply NodeArray_printOthers_mono.
    + unfold ConversionOperatorNode_printLeft. apply Hc.
    + unfold FunctionTypeNode_printLeft.
      destruct (call print_ ret s) as [s1|] eqn:H1; simpl; [|done].
      by rewrite (Hc _ _ _ _ H1).
    + done.
  - unfold dispatch_printRight, Node_printRight.
    destruct (fields node) as [name fn|name params|name|super name|nodes|type|ret params|l r];
      try done.
    unfold FunctionTypeNode_printRight.
    destruct (call print_ params (put s "(")) as [s1|] eqn:H1; simpl; [|done].
    by rewrite (Hc _ _ _ _ H1).
Qed.

Lemma invoke_S h depth : call_le (invoke h depth) (invoke h (S depth)).
Proof.
  induction depth as [|d IH]; [done|].
  change (call_le (invoke_body (invoke h d) h) (invoke_body (invoke h (S d)) h)).
  apply invoke_body_mono; [by intros p n|done].
Qed.

Lemma invoke_deref_le h h' depth :
  deref_le h h' → call_le (invoke h depth) (invoke h' depth).
Proof.
  intros Hh. induction depth as [|d IH]; [done|].
  simpl. by apply invoke_body_mono.
Qed.

Lemma invoke_mono h depth depth' :
  depth ≤ depth' → call_le (invoke h depth) (invoke h depth').
Proof.
  induction 1 as [|d' _ IH]; [by intros m p s s'|].
  intros m p s s' H. by apply invoke_S, IH.
Qed.

Lemma print_mono h depth depth' p s s' :
  depth ≤ depth' → print h depth p s = Some s' → print h depth' p s = Some s'.
Proof. intros Hle. by apply invoke_mono. Qed.

(** ** The model at work *)

Example print_NestedNameNode :
  let st := (NestedNameNode_create (Some 0) (Some 1)
               (NameNode_create "TForm" (NameNode_create "Forms" State_empty).1).1).1 in
  Node_str (heap st) 4 (Some 2) = Some "Forms::TForm".
Proof. reflexivity. Qed.

Example print_ConversionOperatorNode :
  let h := (new [] (mkNode KOtherType false (TypeNode "int" ""))).1 in
  let st := (ConversionOperatorNode_create false (Some 0) (mkState h Context_empty)).1 in
  Node_str (heap st) 4 (Some 1) = Some "operator int".
Proof. reflexivity. Qed.

Example print_TemplateNode_two_params :
  let h := [mkNode KName false (NameNode "map");
            mkNode KOtherType false (TypeNode "int" "");
            mkNode KOtherType false (TypeNode "char" "");
            mkNode KNodeArray false (NodeArray [Some 1; Some 2]);
            mkNode KTemplateNode false (TemplateNode (Some 0) (Some 3))] in
  Node_str h 6 (Some 4) = Some "map<int, char>".
Proof. reflexivity. Qed.

(** A null child is a fault, and an array that holds itself never finishes
    printing within any bound tried. *)
Example print_null_child :
  Node_str [mkNode KConversionOperator false (ConversionOperatorNode nullptr)] 9 (Some 0)
  = None.
Proof. reflexivity. Qed.

Example print_cyclic_array :
  let h := (NodeArray_create false []).1 in
  (h' ← NodeArray_addNode (Some 0) (Some 0) h; Node_str h' 40 (Some 0)) = None.
Proof. reflexivity. Qed.

(** ** Canonical names *)

Lemma NameNode_create_registered name st st' p :
  NameNode_create name st = (st', p) →
  ∃ l, p = Some l ∧ names (context st') !! name = Some l.
Proof.
  destruct (names (context st) !! name) as [l|] eqn:Hl.
  - rewrite (NameNode_create_hit _ _ _ Hl). intros [= <- <-]. eauto.
  - rewrite (NameNode_create_miss _ _ Hl). intros [= <- <-].
    eexists. split; [done|]. simpl. apply lookup_insert_eq.
Qed.

Lemma NestedNameNode_create_registered super name st st' p :
  NestedNameNode_create super name st = (st', p) →
  ∃ l, p = Some l ∧ nestedNames (context st') !! (super, name) = Some l.
Proof.
  destruct (nestedNames (context st) !! (super, name)) as [l|] eqn:Hl.
  - rewrite (NestedNameNode_create_hit _ _ _ _ Hl). intros [= <- <-]. eauto.
  - rewrite (NestedNameNode_create_miss _ _ _ Hl). intros [= <- <-].
    eexists. split; [done|]. simpl. apply lookup_insert_eq.
Qed.

(** The object a factory call returns carries the key it was asked for. *)
Lemma NameNode_create_carries name st st' p :
  State_wf st → NameNode_create name st = (st', p) →
  ∃ l, p = Some l ∧ fields <$> heap st' !! l = Some (NameNode name).
Proof.
  intros Hwf H.
  pose proof (State_wf_NameNode_create name st Hwf) as [Hn _].
  rewrite H in Hn. simpl in Hn.
  destruct (NameNode_create_registered _ _ _ _ H) as (l & -> & Hl). eauto.
Qed.

Lemma NestedNameNode_create_carries super name st st' p :
  State_wf st → NestedNameNode_create super name st = (st', p) →
  ∃ l, p = Some l ∧ fields <$> heap st' !! l = Some (NestedNameNode super name).
Proof.
  intros Hwf H.
  pose proof (State_wf_NestedNameNode_create super name st Hwf) as [_ Hnn].
  rewrite H in Hnn. simpl in Hnn.
  destruct (NestedNameNode_create_registered _ _ _ _ _ H) as (l & -> & Hl). eauto.
Qed.

(** C1.  Within one context, a request for the name [s1] and a later request
    for the name [s2], with any calls of the construction interface between
    the two, return a non-null pointer to the same object when [s1 = s2].
    In a context that satisfies its invariant the pointer of the first
    request leads to a name object that carries [s1], right after the
    request and still after the second one, the pointer of the second
    request leads to a name object that carries [s2], and the two pointers
    differ when [s1 ≠ s2]. *)
Theorem NameNode_create_canonical d st s1 s2 st1 p1 st1' st2 p2 :
  NameNode_create s1 st = (st1, p1) →
  rtc (step d) st1 st1' →
  NameNode_create s2 st1' = (st2, p2) →
  p1 ≠ nullptr ∧ (s1 = s2 → p1 = p2) ∧
  (State_wf st →
     fields <$> deref (heap st1) p1 = Some (NameNode s1) ∧
     fields <$> deref (heap st2) p1 = Some (NameNode s1) ∧
     fields <$> deref (heap st2) p2 = Some (NameNode s2) ∧
     (s1 ≠ s2 → p1 ≠ p2)).
Proof.
  intros H1 Hsteps H2.
  destruct (NameNode_create_registered _ _ _ _ H1) as (l1 & -> & Hl1).
  destruct (steps_Context_le _ _ _ Hsteps) as [Hle _].
  pose proof (lookup_weaken _ _ _ _ Hl1 Hle) as Hl1'.
  split; [done|]. split.
  - intros <-. rewrite (NameNode_create_hit _ _ _ Hl1') in H2. congruence.
  - intros Hwf.
    assert (State_wf st1) as Hwf1.
    { pose proof (State_wf_NameNode_create s1 st Hwf) as H. by rewrite H1 in H. }
    pose proof (steps_State_wf _ _ _ Hsteps Hwf1) as Hwf1'.
    assert (State_wf st2) as Hwf2.
    { pose proof (State_wf_NameNode_create s2 st1' Hwf1') as H. by rewrite H2 in H. }
    assert (names (context st2) !! s1 = Some l1) as Hl12.
    { destruct (Context_le_NameNode_create s2 st1') as [Hle2 _].
      rewrite H2 in Hle2. by eapply lookup_weaken. }
    destruct (NameNode_create_carries _ _ _ _ Hwf1' H2) as (l2 & -> & Hc2).
    split; [exact (proj1 Hwf1 _ _ Hl1)|].
    split; [exact (proj1 Hwf2 _ _ Hl12)|].
    split; [exact Hc2|].
    intros Hne [= ->].
    destruct (names (context st1') !! s2) as [l|] eqn:Hl2.
    + rewrite (NameNode_create_hit _ _ _ Hl2) in H2. injection H2 as <- <-.
      destruct Hwf1' as [Hn _]. rewrite (Hn _ _ Hl1') in Hc2. congruence.
    + rewrite (NameNode_create_miss _ _ Hl2) in H2. injection H2 as <- <-.
      destruct Hwf1' as [Hn _]. specialize (Hn _ _ Hl1').
      rewrite lookup_ge_None_2 in Hn; [done|lia].
Qed.

(** C2.  Within one context, a request for the nested name of the pointer
    pair [(a, b)] and a later request for the pair [(a', b')], with any calls
    of the construction interface between the two, return a non-null pointer
    to the same object when the two pairs are the same pointers.  In a
    context that satisfies its invariant the pointer of the first request
    leads to a nested-name object whose children are [a] and [b], right
    after the request and still after the second one, the pointer of the
    second request leads to a nested-name object whose children are [a'] and
    [b'], and the two pointers differ when the pairs differ as pointers,
    whatever the objects behind them contain. *)
Theorem NestedNameNode_create_canonical d st a b a' b' st1 p1 st1' st2 p2 :
  NestedNameNode_create a b st = (st1, p1) →
  rtc (step d) st1 st1' →
  NestedNameNode_create a' b' st1' = (st2, p2) →
  p1 ≠ nullptr ∧ ((a, b) = (a', b') → p1 = p2) ∧
  (State_wf st →
     fields <$> deref (heap st1) p1 = Some (NestedNameNode a b) ∧
     fields <$> deref (heap st2) p1 = Some (NestedNameNode a b) ∧
     fields <$> deref (heap st2) p2 = Some (NestedNameNode a' b') ∧
     ((a, b) ≠ (a', b') → p1 ≠ p2)).
Proof.
  intros H1 Hsteps H2.
  destruct (NestedNameNode_create_registered _ _ _ _ _ H1) as (l1 & -> & Hl1).
  destruct (steps_Context_le _ _ _ Hsteps) as [_ Hle].
  pose proof (lookup_weaken _ _ _ _ Hl1 Hle) as Hl1'.
  split; [done|]. split.
  - intros [= <- <-]. rewrite (NestedNameNode_create_hit _ _ _ _ Hl1') in H2. congruence.
  - intros Hwf.
    assert (State_wf st1) as Hwf1.
    { pose proof (State_wf_NestedNameNode_create a b st Hwf) as H. by rewrite H1 in H. }
    pose proof (steps_State_wf _ _ _ Hsteps Hwf1) as Hwf1'.
    assert (State_wf st2) as Hwf2.
    { pose proof (State_wf_NestedNameNode_create a' b' st1' Hwf1') as H.
      by rewrite H2 in H. }
    assert (nestedNames (context st2) !! (a, b) = Some l1) as Hl12.
    { destruct (Context_le_NestedNameNode_create a' b' st1') as [_ Hle2].
      rewrite H2 in Hle2. by eapply lookup_weaken. }
    destruct (NestedNameNode_create_carries _ _ _ _ _ Hwf1' H2) as (l2 & -> & Hc2).
    split; [exact (proj2 Hwf1 _ _ _ Hl1)|].
    split; [exact (proj2 Hwf2 _ _ _ Hl12)|].
    split; [exact Hc2|].
    intros Hne [= ->].
    destruct (nestedNames (context st1') !! (a', b')) as [l|] eqn:Hl2.
    + rewrite (NestedNameNode_create_hit _ _ _ _ Hl2) in H2. injection H2 as <- <-.
      destruct Hwf1' as [_ Hnn]. rewrite (Hnn _ _ _ Hl1') in Hc2. congruence.
    + rewrite (NestedNameNode_create_miss _ _ _ Hl2) in H2. injection H2 as <- <-.
      destruct Hwf1' as [_ Hnn]. specialize (Hnn _ _ _ Hl1').
      rewrite lookup_ge_None_2 in Hnn; [done|lia].
Qed.

Lemma State_wf_Context_empty h : State_wf (mkState h Context_empty).
Proof. split; intros; simpl in *; by rewrite lookup_empty in H. Qed.

(** In a fresh context, [Foo] is requested, then [Bar], then [Foo] again:
    the first and the third request share their object, which carries [Foo]
    from the first request on; the second request has its own object, which
    carries [Bar]. *)
Lemma NameNode_create_canonical_witness :
  let r1 := NameNode_create "Foo" State_empty in
  let r2 := NameNode_create "Bar" r1.1 in
  let r3 := NameNode_create "Foo" r2.1 in
  r1.2 = r3.2 ∧ r1.2 ≠ r2.2 ∧
  fields <$> deref (heap r1.1) r1.2 = Some (NameNode "Foo") ∧
  fields <$> deref (heap r3.1) r1.2 = Some (NameNode "Foo") ∧
  fields <$> deref (heap r2.1) r2.2 = Some (NameNode "Bar").
Proof.
  intros r1 r2 r3.
  pose proof (NameNode_create_canonical false State_empty "Foo" "Foo"
                r1.1 r1.2 r2.1 r3.1 r3.2 eq_refl
                (rtc_once _ _ (step_NameNode false "Bar" r1.1)) eq_refl)
    as (_ & Hsame & Hlive).
  pose proof (NameNode_create_canonical false State_empty "Foo" "Bar"
                r1.1 r1.2 r1.1 r2.1 r2.2 eq_refl (rtc_refl _ _) eq_refl)
    as (_ & _ & Hother).
  destruct (Hlive State_wf_empty) as (Hl1 & Hl3 & _ & _).
  destruct (Hother State_wf_empty) as (_ & _ & Hl2 & Hdiff).
  split; [by apply Hsame|]. split; [apply Hdiff; discriminate|].
  split; [exact Hl1|]. split; [exact Hl3|exact Hl2].
Defined.

(** Two empty arrays are two objects with equal contents.  Nesting the same
    name under the first array twice gives one object, whose children are
    the first array and the name; nesting it under the second array gives
    another object, whose children are the second array and the name. *)
Lemma NestedNameNode_create_canonical_witness :
  let a1 := NodeArray_create false [] in
  let a2 := NodeArray_create false a1.1 in
  let st := mkState a2.1 Context_empty in
  let n := NameNode_create "x" st in
  let r1 := NestedNameNode_create a1.2 n.2 n.1 in
  let r2 := NestedNameNode_create a2.2 n.2 r1.1 in
  let r3 := NestedNameNode_create a1.2 n.2 r2.1 in
  deref (heap r3.1) a1.2 = deref (heap r3.1) a2.2 ∧ a1.2 ≠ a2.2 ∧
  r1.2 = r3.2 ∧ r1.2 ≠ r2.2 ∧
  fields <$> deref (heap r1.1) r1.2 = Some (NestedNameNode a1.2 n.2) ∧
  fields <$> deref (heap r3.1) r1.2 = Some (NestedNameNode a1.2 n.2) ∧
  fields <$> deref (heap r2.1) r2.2 = Some (NestedNameNode a2.2 n.2).
Proof.
  intros a1 a2 st n r1 r2 r3.
  assert (State_wf n.1) as Hwf
    by apply State_wf_NameNode_create, State_wf_Context_empty.
  pose proof (NestedNameNode_create_canonical false n.1 a1.2 n.2 a1.2 n.2
                r1.1 r1.2 r2.1 r3.1 r3.2 eq_refl
                (rtc_once _ _ (step_NestedNameNode false a2.2 n.2 r1.1)) eq_refl)
    as (_ & Hsame & Hlive).
  pose proof (NestedNameNode_create_canonical false n.1 a1.2 n.2 a2.2 n.2
                r1.1 r1.2 r1.1 r2.1 r2.2 eq_refl (rtc_refl _ _) eq_refl)
    as (_ & _ & Hother).
  destruct (Hlive Hwf) as (Hl1 & Hl3 & _ & _).
  destruct (Hother Hwf) as (_ & _ & Hl2 & Hdiff).
  split; [reflexivity|]. split; [discriminate|].
  split; [by apply Hsame|]. split; [apply Hdiff; discriminate|].
  split; [exact Hl1|]. split; [exact Hl3|exact Hl2].
Defined.

(** C9, as stated, fails: asked for the empty string in a fresh context, the
    factory returns a name node that carries the empty string. *)
Lemma NameNode_create_empty_string :
  ¬ (∀ st s st' l n name,
       NameNode_create s st = (st', Some l) →
       heap st' !! l = Some n →
       fields n = NameNode name →
       name ≠ "").
Proof.
  intros H.
  apply (H State_empty "" (NameNode_create "" State_empty).1 0
           (mkNode KName false (NameNode "")) ""); reflexivity.
Qed.

(** C9, amended.  In a context that satisfies its invariant, the pointer
    [NameNode::create] returns for the string [s] is not null and leads to a
    name node that carries exactly [s]; the string is therefore non-empty
    whenever [s] is. *)
Theorem NameNode_create_carries_request st s st' p :
  State_wf st →
  NameNode_create s st = (st', p) →
  ∃ l n, p = Some l ∧ heap st' !! l = Some n ∧ fields n = NameNode s ∧
         (s ≠ "" → ∀ name, fields n = NameNode name → name ≠ "").
Proof.
  intros Hwf H.
  destruct (NameNode_create_carries _ _ _ _ Hwf H) as (l & -> & Hl).
  destruct (heap st' !! l) as [n|] eqn:Hn; [|done].
  injection Hl as Hl. exists l, n.
  split; [done|]. split; [done|]. split; [done|].
  intros Hs name Hname. congruence.
Qed.

Lemma NameNode_create_carries_request_witness :
  ∃ l n, (NameNode_create "Foo" State_empty).2 = Some l ∧
         heap (NameNode_create "Foo" State_empty).1 !! l = Some n ∧
         fields n = NameNode "Foo" ∧
         ("Foo" ≠ "" → ∀ name, fields n = NameNode name → name ≠ "").
Proof.
  apply (NameNode_create_carries_request State_empty "Foo").
  - apply State_wf_empty.
  - reflexivity.
Defined.

(** ** Calls that return *)

Lemma writes_invoke h m p out :
  writes h m p out →
  ∃ depth, ∀ depth' s, depth ≤ depth' → invoke h depth' m p s = Some (s +:+ out).
Proof.
  intros [depth H]. exists depth. intros depth' s Hle.
  rewrite invoke_append. by rewrite (invoke_mono _ _ _ Hle _ _ _ _ H).
Qed.

Lemma invoke_writes h depth m p s s' :
  invoke h depth m p s = Some s' → ∃ out, s' = s +:+ out ∧ writes h m p out.
Proof.
  rewrite invoke_append.
  destruct (invoke h depth m p "") as [out|] eqn:H; simpl; [|done].
  intros [= <-]. exists out. split; [done|]. by exists depth.
Qed.

(** The result of a call does not depend on the bound. *)
Lemma writes_det h m p out1 out2 :
  writes h m p out1 → writes h m p out2 → out1 = out2.
Proof.
  intros [d1 H1] [d2 H2].
  pose proof (invoke_mono h d1 (d1 `max` d2) ltac:(lia) _ _ _ _ H1) as H1'.
  pose proof (invoke_mono h d2 (d1 `max` d2) ltac:(lia) _ _ _ _ H2) as H2'.
  congruence.
Qed.

Lemma writes_deref_le h h' m p out :
  deref_le h h' → writes h m p out → writes h' m p out.
Proof. intros Hh [depth H]. exists depth. by eapply invoke_deref_le. Qed.

Lemma deref_le_new h n : deref_le h (new h n).1.
Proof.
  intros [l|] x; simpl; [|done]. intros H. by apply lookup_app_l_Some.
Qed.

Lemma deref_le_trans h1 h2 h3 : deref_le h1 h2 → deref_le h2 h3 → deref_le h1 h3.
Proof. intros H12 H23 p n H. by apply H23, H12. Qed.

Lemma Forall2_writes_invoke h m ps outs :
  Forall2 (writes h m) ps outs →
  ∃ depth, Forall2 (λ p out, ∀ s, invoke h depth m p s = Some (s +:+ out)) ps outs.
Proof.
  induction 1 as [|p out ps outs Hw _ [d IH]].
  - exists 0. constructor.
  - destruct (writes_invoke _ _ _ _ Hw) as [d0 H0].
    exists (d0 `max` d). constructor.
    + intros s. apply H0. lia.
    + eapply Forall2_impl; [exact IH|]. intros q o Hq s.
      specialize (Hq ""). rewrite invoke_append.
      by rewrite (invoke_mono h d (d0 `max` d) ltac:(lia) _ _ _ _ Hq).
Qed.

(** ** The protocol *)

(** The classes of borland_ast.cpp inherit the default [printRight]. *)
Lemma printRight_default h depth l node s :
  h !! l = Some node →
  (∀ retType params, fields node ≠ FunctionTypeNode retType params) →
  (∀ left right, fields node ≠ TypeNode left right) →
  printRight h (S depth) (Some l) s = Some s.
Proof.
  intros Hl Hft Hty. unfold printRight. simpl. unfold invoke_body. simpl.
  rewrite Hl. simpl. unfold dispatch_printRight.
  destruct (fields node) as [| | | | | |ret params|left right]; try done.
  - by destruct (Hft ret params).
  - by destruct (Hty left right).
Qed.

(** One level of [invoke] at each entry point. *)
Lemma print_unfold h depth l node s :
  h !! l = Some node →
  print h (S depth) (Some l) s =
    Node_print (invoke h depth) node (Some l) s.
Proof.
  intros Hl. unfold print. simpl. unfold invoke_body. simpl. by rewrite Hl.
Qed.

Lemma printLeft_unfold h depth l node s :
  h !! l = Some node →
  printLeft h (S depth) (Some l) s = dispatch_printLeft (invoke h depth) node s.
Proof.
  intros Hl. unfold printLeft. simpl. unfold invoke_body. simpl. by rewrite Hl.
Qed.

Lemma printRight_unfold h depth l node s :
  h !! l = Some node →
  printRight h (S depth) (Some l) s = dispatch_printRight (invoke h depth) node s.
Proof.
  intros Hl. unfold printRight. simpl. unfold invoke_body. simpl. by rewrite Hl.
Qed.

(** [print] on an object all of whose [printLeft] text is known. *)
Lemma print_of_printLeft h depth l node s s' :
  h !! l = Some node →
  (∀ retType params, fields node ≠ FunctionTypeNode retType params) →
  (∀ left right, fields node ≠ TypeNode left right) →
  printLeft h (S depth) (Some l) s = Some s' →
  print h (S (S depth)) (Some l) s = Some s'.
Proof.
  intros Hl Hft Hty HP. rewrite (print_unfold _ _ _ _ _ Hl). unfold Node_print.
  fold (printLeft h (S depth)). rewrite HP. cbn [mbind option_bind].
  destruct (_has_right node); [|done].
  fold (printRight h (S depth)). rewrite (printRight_unfold _ _ _ _ _ Hl).
  unfold dispatch_printRight.
  destruct (fields node) as [| | | | | |ret params|left right]; try done.
  - by destruct (Hft ret params).
  - by destruct (Hty left right).
Qed.

(** C4.  On every object, [print] runs [printLeft] and then, exactly when the
    object's [_has_right] flag is set, [printRight] on the stream [printLeft]
    left behind; the default [printRight] returns the stream as it got it. *)
Theorem Node_print_protocol h depth l node s :
  h !! l = Some node →
  print h (S depth) (Some l) s =
    (s1 ← printLeft h depth (Some l) s;
     if Node_hasRight node then printRight h depth (Some l) s1 else Some s1)
  ∧ Node_printRight s = Some s.
Proof.
  intros Hl. split; [|reflexivity].
  rewrite (print_unfold _ _ _ _ _ Hl). reflexivity.
Qed.

Lemma Node_print_protocol_witness :
  let h := [mkNode KName false (NameNode "a"); mkNode KOtherType true (TypeNode "(" ")")] in
  print h 2 (Some 0) "" = Some "a" ∧ print h 2 (Some 1) "" = Some "()".
Proof.
  intros h. split.
  - rewrite (proj1 (Node_print_protocol h 1 0 (mkNode KName false (NameNode "a")) ""
                      eq_refl)).
    reflexivity.
  - rewrite (proj1 (Node_print_protocol h 1 1 (mkNode KOtherType true (TypeNode "(" ")")) ""
                      eq_refl)).
    reflexivity.
Defined.

(** ** Functions *)

Lemma FunctionNode_print h depth l k r name funcNode s left nm right :
  h !! l = Some (mkNode k r (FunctionNode name funcNode)) →
  (∀ t, invoke h depth printLeft_ funcNode t = Some (t +:+ left)) →
  (∀ t, invoke h depth print_ name t = Some (t +:+ nm)) →
  (∀ t, invoke h depth printRight_ funcNode t = Some (t +:+ right)) →
  print h (S (S depth)) (Some l) s = Some (s +:+ (left +:+ nm +:+ right)).
Proof.
  intros Hl HL HN HR.
  apply (print_of_printLeft _ _ _ _ _ _ Hl); [done..|].
  rewrite (printLeft_unfold _ _ _ _ _ Hl).
  unfold dispatch_printLeft, FunctionNode_printLeft. cbn [fields].
  rewrite HL. cbn [mbind option_bind]. rewrite HN. cbn [mbind option_bind].
  rewrite HR. by rewrite !append_assoc.
Qed.

(** C3.  When the function-type child's [printLeft] writes [left], the name
    prints as [nm] and the function-type child's [printRight] writes [right],
    printing the function node returns and writes [left], [nm], [right] in
    this order.  The function of return type [int], name [foo] and parameter
    list [int] prints as [int foo(int)]. *)
Theorem FunctionNode_print_interleaves :
  (∀ h l k r name funcNode left nm right,
     h !! l = Some (mkNode k r (FunctionNode name funcNode)) →
     writes h printLeft_ funcNode left →
     writes h print_ name nm →
     writes h printRight_ funcNode right →
     writes h print_ (Some l) (left +:+ nm +:+ right)) ∧
  (∀ d, ∃ h p, int_foo_int d = Some (h, p) ∧ Node_str h 7 p = Some "int foo(int)").
Proof.
  split.
  - intros h l k r name funcNode left nm right Hl HL HN HR.
    destruct (writes_invoke _ _ _ _ HL) as [d1 H1].
    destruct (writes_invoke _ _ _ _ HN) as [d2 H2].
    destruct (writes_invoke _ _ _ _ HR) as [d3 H3].
    exists (S (S (Nat.max (Nat.max d1 d2) d3))).
    change (print h (S (S (Nat.max (Nat.max d1 d2) d3))) (Some l) "" =
            Some ("" +:+ (left +:+ nm +:+ right))).
    eapply FunctionNode_print; [exact Hl|..]; intros t.
    + apply H1. lia.
    + apply H2. lia.
    + apply H3. lia.
  - intros d. eexists _, _. split; [reflexivity|]. by destruct d.
Qed.

Lemma FunctionNode_print_interleaves_witness :
  let h := [mkNode KOtherType true (TypeNode "void (*" ")(char)");
            mkNode KName false (NameNode "handler");
            mkNode KFunction false (FunctionNode (Some 1) (Some 0))] in
  writes h print_ (Some 2) "void (*handler)(char)".
Proof.
  intros h.
  apply (proj1 FunctionNode_print_interleaves h 2 KFunction false (Some 1) (Some 0)
           "void (*" "handler" ")(char)").
  - reflexivity.
  - by exists 1.
  - by exists 2.
  - by exists 1.
Defined.

(** ** Templates *)

Lemma TemplateNode_print_absent h depth l k r name out s :
  h !! l = Some (mkNode k r (TemplateNode name nullptr)) →
  (∀ t, invoke h depth print_ name t = Some (t +:+ out)) →
  print h (S (S depth)) (Some l) s = Some (s +:+ (out +:+ "<>")).
Proof.
  intros Hl HN.
  apply (print_of_printLeft _ _ _ _ _ _ Hl); [done..|].
  rewrite (printLeft_unfold _ _ _ _ _ Hl).
  unfold dispatch_printLeft, TemplateNode_printLeft. cbn [fields].
  rewrite HN. cbn [mbind option_bind]. unfold put. by rewrite !append_assoc.
Qed.

Lemma NodeArray_print_empty h depth a k r s :
  h !! a = Some (mkNode k r (NodeArray [])) →
  print h (S (S depth)) (Some a) s = Some s.
Proof.
  intros Ha.
  apply (print_of_printLeft _ _ _ _ _ _ Ha); [done..|].
  by rewrite (printLeft_unfold _ _ _ _ _ Ha).
Qed.

Lemma TemplateNode_print_empty h depth l k r name a ka ra out s :
  h !! l = Some (mkNode k r (TemplateNode name (Some a))) →
  h !! a = Some (mkNode ka ra (NodeArray [])) →
  (∀ t, invoke h (S (S depth)) print_ name t = Some (t +:+ out)) →
  print h (S (S (S (S depth)))) (Some l) s = Some (s +:+ (out +:+ "<>")).
Proof.
  intros Hl Ha HN.
  apply (print_of_printLeft _ _ _ _ _ _ Hl); [done..|].
  rewrite (printLeft_unfold _ _ _ _ _ Hl).
  unfold dispatch_printLeft, TemplateNode_printLeft. cbn [fields].
  rewrite HN. cbn [mbind option_bind].
  fold (print h (S (S depth))).
  rewrite (NodeArray_print_empty _ _ _ _ _ _ Ha).
  cbn [mbind option_bind]. unfold put. by rewrite !append_assoc.
Qed.

(** C5.  Let the name [name] print as [out].  A template node built on it
    with no parameter array and one built on it with a newly created, empty
    parameter array both print as [out] followed by [<>]. *)
Theorem TemplateNode_absent_or_empty_params d h name out :
  writes h print_ name out →
  let t1 := TemplateNode_create d name nullptr h in
  let a := NodeArray_create d t1.1 in
  let t2 := TemplateNode_create d name a.2 a.1 in
  writes t2.1 print_ t1.2 (out +:+ "<>") ∧ writes t2.1 print_ t2.2 (out +:+ "<>").
Proof.
  intros Hname t1 a t2.
  set (n1 := mkNode KTemplateNode d (TemplateNode name nullptr)).
  set (na := mkNode KNodeArray d (NodeArray [])).
  set (n2 := mkNode KTemplateNode d (TemplateNode name (Some (S (length h))))).
  assert (t2.1 = h ++ [n1; na; n2]) as Hh.
  { subst t2 a t1. unfold TemplateNode_create, NodeArray_create, new. simpl.
    rewrite length_app. simpl. rewrite Nat.add_1_r.
    by rewrite <-!app_assoc. }
  assert (t1.2 = Some (length h)) as -> by done.
  assert (t2.2 = Some (S (S (length h)))) as ->.
  { subst t2 a t1. unfold TemplateNode_create, NodeArray_create, new. simpl.
    rewrite !length_app. simpl. do 2 f_equal. lia. }
  rewrite Hh. clear Hh t1 a t2.
  assert (deref_le h (h ++ [n1; na; n2])) as Hle.
  { intros [l|] x; simpl; [|done]. intros H. by apply lookup_app_l_Some. }
  destruct (writes_invoke _ _ _ _ (writes_deref_le _ _ _ _ _ Hle Hname)) as [depth HN].
  assert ((h ++ [n1; na; n2]) !! length h = Some n1) as H1
    by apply list_lookup_middle, eq_refl.
  assert ((h ++ [n1; na; n2]) !! S (length h) = Some na) as Ha.
  { rewrite lookup_app_r by lia. by replace (S (length h) - length h) with 1 by lia. }
  assert ((h ++ [n1; na; n2]) !! S (S (length h)) = Some n2) as H2.
  { rewrite lookup_app_r by lia. by replace (S (S (length h)) - length h) with 2 by lia. }
  split.
  - exists (S (S depth)).
    change (print (h ++ [n1; na; n2]) (S (S depth)) (Some (length h)) "" =
            Some ("" +:+ (out +:+ "<>"))).
    eapply TemplateNode_print_absent; [exact H1|]. intros t. by apply HN.
  - exists (S (S (S (S depth)))).
    change (print (h ++ [n1; na; n2]) (S (S (S (S depth)))) (Some (S (S (length h)))) "" =
            Some ("" +:+ (out +:+ "<>"))).
    eapply TemplateNode_print_empty; [exact H2|exact Ha|].
    intros t. apply HN. lia.
Qed.

Lemma TemplateNode_absent_or_empty_params_witness :
  let h := (NameNode_create "vector" State_empty).1.(heap) in
  let t1 := TemplateNode_create false (Some 0) nullptr h in
  let a := NodeArray_create false t1.1 in
  let t2 := TemplateNode_create false (Some 0) a.2 a.1 in
  writes t2.1 print_ t1.2 "vector<>" ∧ writes t2.1 print_ t2.2 "vector<>".
Proof.
  apply (TemplateNode_absent_or_empty_params false
           (NameNode_create "vector" State_empty).1.(heap) (Some 0) "vector").
  by exists 2.
Defined.

(** ** Arrays *)

Lemma NodeArray_printOthers_joined call others outs :
  Forall2 (λ c out, ∀ s, call print_ c s = Some (s +:+ out)) others outs →
  ∀ s o, NodeArray_printOthers call others (s +:+ o) = Some (s +:+ joined (o :: outs)).
Proof.
  induction 1 as [|c out others outs Hc _ IH]; intros s o; [done|].
  cbn [NodeArray_printOthers]. rewrite Hc. cbn [mbind option_bind].
  unfold put. rewrite IH, !append_assoc. reflexivity.
Qed.

Lemma NodeArray_printLeft_joined call nodes outs s :
  Forall2 (λ c out, ∀ s, call print_ c s = Some (s +:+ out)) nodes outs →
  NodeArray_printLeft call nodes s = Some (s +:+ joined outs).
Proof.
  destruct 1 as [|c out others outs Hc Hothers].
  - simpl. by rewrite append_nil_r.
  - cbn [NodeArray_printLeft]. rewrite Hc. cbn [mbind option_bind].
    by apply NodeArray_printOthers_joined.
Qed.

Lemma NodeArray_print_joined h depth l k r nodes outs s :
  h !! l = Some (mkNode k r (NodeArray nodes)) →
  Forall2 (λ c out, ∀ s, invoke h depth print_ c s = Some (s +:+ out)) nodes outs →
  print h (S (S depth)) (Some l) s = Some (s +:+ joined outs).
Proof.
  intros Hl Hnodes.
  apply (print_of_printLeft _ _ _ _ _ _ Hl); [done..|].
  rewrite (printLeft_unfold _ _ _ _ _ Hl). unfold dispatch_printLeft. cbn [fields].
  by apply NodeArray_printLeft_joined.
Qed.

(** [addNode] always finds room, and a run of calls leaves the added
    pointers behind the ones the array held, in the order of the calls. *)
Lemma NodeArray_addNodes_spec l k r children : ∀ h nodes,
  h !! l = Some (mkNode k r (NodeArray nodes)) →
  ∃ h', NodeArray_addNodes (Some l) children h = Some h' ∧
        h' !! l = Some (mkNode k r (NodeArray (nodes ++ children))).
Proof.
  induction children as [|c children IH]; intros h nodes Hl.
  - exists h. by rewrite app_nil_r.
  - cbn [NodeArray_addNodes]. unfold NodeArray_addNode. simpl.
    rewrite Hl. simpl.
    destruct (IH (<[l := mkNode k r (NodeArray (nodes ++ [c]))]> h) (nodes ++ [c]))
      as (h' & Hh' & Hl').
    { apply list_lookup_insert_eq. by eapply lookup_lt_Some. }
    exists h'. split; [done|]. by rewrite <-app_assoc in Hl'.
Qed.

(** C6.  The children handed to [addNode] on a newly created array, one call
    after the other, end up in the array in the order of the calls; when each
    child prints, the array prints as the texts of the children in that
    order, with [", "] between consecutive ones and nowhere else. *)
Theorem NodeArray_print_insertion_order d h0 children :
  let a := NodeArray_create d h0 in
  ∃ h, NodeArray_addNodes a.2 children a.1 = Some h ∧
       fields <$> deref h a.2 = Some (NodeArray children) ∧
       ∀ outs, Forall2 (writes h print_) children outs →
               writes h print_ a.2 (joined outs).
Proof.
  intros a.
  destruct (NodeArray_addNodes_spec (length h0) KNodeArray d children a.1 [])
    as (h & Hadd & Hl).
  { apply list_lookup_middle, eq_refl. }
  exists h. split; [exact Hadd|]. split.
  { simpl. by rewrite Hl. }
  intros outs Houts.
  destruct (Forall2_writes_invoke _ _ _ _ Houts) as [depth Hd].
  exists (S (S depth)).
  change (print h (S (S depth)) (Some (length h0)) "" = Some ("" +:+ joined outs)).
  eapply NodeArray_print_joined; [exact Hl|exact Hd].
Qed.

Lemma NodeArray_print_insertion_order_witness :
  let h0 := [mkNode KName false (NameNode "a"); mkNode KName false (NameNode "b");
             mkNode KName false (NameNode "c")] in
  ∃ h, NodeArray_addNodes (Some 3) [Some 0; Some 1; Some 2]
         (NodeArray_create false h0).1 = Some h ∧
       writes h print_ (Some 3) "a, b, c".
Proof.
  intros h0.
  destruct (NodeArray_print_insertion_order false h0 [Some 0; Some 1; Some 2])
    as (h & Hadd & _ & Hprint).
  exists h. split; [exact Hadd|].
  apply (Hprint ["a"; "b"; "c"]).
  injection Hadd as <-.
  repeat constructor; by exists 2.
Defined.

(** ** Qualifiers *)

(** C7.  With both flags set, [printSpaceL] writes [ volatile] and then
    [ const], and [printSpaceR] writes [volatile ] and then [const ]. *)
Theorem Qualifiers_volatile_before_const q s :
  Qualifiers_isVolatile q = true →
  Qualifiers_isConst q = true →
  Qualifiers_printSpaceL q s = s +:+ " volatile" +:+ " const" ∧
  Qualifiers_printSpaceR q s = s +:+ "volatile " +:+ "const ".
Proof.
  unfold Qualifiers_isVolatile, Qualifiers_isConst,
    Qualifiers_printSpaceL, Qualifiers_printSpaceR, put.
  intros -> ->. by rewrite !append_assoc.
Qed.

Lemma Qualifiers_volatile_before_const_witness :
  Qualifiers_printSpaceL (mkQualifiers true true) "int" = "int volatile const" ∧
  Qualifiers_printSpaceR (mkQualifiers true true) "" = "volatile const ".
Proof.
  split.
  - apply (Qualifiers_volatile_before_const (mkQualifiers true true) "int"); reflexivity.
  - apply (Qualifiers_volatile_before_const (mkQualifiers true true) ""); reflexivity.
Defined.

(** ** Access by position *)

(** C8.  [get] returns for every index and never throws; at an index not
    below the size it returns the null pointer, below the size it returns the
    element at that position. *)
Theorem NodeArray_get_total nodes i :
  (∃ p, NodeArray_get nodes i = Returns p) ∧
  (NodeArray_size nodes ≤ i → NodeArray_get nodes i = Returns nullptr) ∧
  (∀ p, nodes !! i = Some p → NodeArray_get nodes i = Returns p).
Proof.
  unfold NodeArray_get, NodeArray_size, vector_at.
  destruct (nodes !! i) as [p|] eqn:Hi.
  - pose proof (lookup_lt_Some _ _ _ Hi). case_decide; [|lia].
    split; [by exists p|]. split; [lia|]. by intros ? [= <-].
  - pose proof (lookup_ge_None_1 _ _ Hi). case_decide; [lia|].
    split; [by eexists|]. by split.
Qed.

Lemma NodeArray_get_total_witness :
  NodeArray_get [Some 4; Some 7] 2 = Returns nullptr ∧
  NodeArray_get [Some 4; Some 7] 1 = Returns (Some 7).
Proof.
  split.
  - apply (proj1 (proj2 (NodeArray_get_total [Some 4; Some 7] 2))).
    unfold NodeArray_size. simpl. lia.
  - apply (proj2 (proj2 (NodeArray_get_total [Some 4; Some 7] 1))). reflexivity.
Defined.

(** ** The string entry point *)

(** C10.  [str] returns what [print] writes to a stream that starts empty;
    [print] on any stream appends exactly the text [str] returns; the two
    agree whatever bound on the depth of calls each of them runs under; and
    a second [print] of the same object writes the same text again.  Both
    entry points read the store of objects and return nothing but text. *)
Theorem Node_str_agrees_with_print h depth p :
  Node_str h depth p = print h depth p "" ∧
  (∀ s, print h depth p s = String.append s <$> Node_str h depth p) ∧
  (∀ depth' s s' out,
     Node_str h depth p = Some out → print h depth' p s = Some s' → s' = s +:+ out) ∧
  (∀ s s', print h depth p s = Some s' →
           ∃ out, Node_str h depth p = Some out ∧ s' = s +:+ out ∧
                  print h depth p s' = Some (s' +:+ out)).
Proof.
  split; [reflexivity|]. split; [|split].
  - intros s. unfold Node_str, print. apply invoke_append.
  - intros depth' s s' out Hstr Hprint.
    destruct (invoke_writes _ _ _ _ _ _ Hprint) as (out' & -> & Hout').
    f_equal. eapply writes_det; [exact Hout'|]. by exists depth.
  - intros s s'. unfold Node_str, print. rewrite invoke_append.
    destruct (invoke h depth print_ p "") as [out|] eqn:Hout; [|done].
    intros [= <-]. exists out. split; [done|]. split; [done|].
    by rewrite invoke_append, Hout.
Qed.

Lemma Node_str_agrees_with_print_witness :
  let h := heap (NestedNameNode_create (Some 0) (Some 1)
                   (NameNode_create "B" (NameNode_create "A" State_empty).1).1).1 in
  print h 4 (Some 2) "x = " = Some "x = A::B" ∧
  (∀ s', print h 9 (Some 2) "x = " = Some s' → s' = "x = A::B").
Proof.
  intros h. split.
  - rewrite (proj1 (proj2 (Node_str_agrees_with_print h 4 (Some 2)))). reflexivity.
  - intros s' H.
    apply (proj1 (proj2 (proj2 (Node_str_agrees_with_print h 4 (Some 2))))
             9 "x = " s' "A::B");
      [reflexivity|exact H].
Defined.

(** ** What each class prints *)

Lemma invoke_O_None h m p s s' : invoke h 0 m p s = Some s' → False.
Proof. done. Qed.

(** A call that returns has written some text, and writes that text onto
    any stream under the same bound. *)
Lemma invoke_Some h depth m p s s' :
  invoke h depth m p s = Some s' →
  ∃ out, s' = s +:+ out ∧ writes h m p out ∧
         ∀ t, invoke h depth m p t = Some (t +:+ out).
Proof.
  intros H. rewrite invoke_append in H.
  destruct (invoke h depth m p "") as [out|] eqn:Hout; [|done].
  injection H as <-. exists out. split; [done|]. split; [by exists depth|].
  intros t. by rewrite invoke_append, Hout.
Qed.

Lemma writes_nullptr h m out : writes h m nullptr out → False.
Proof. intros [[|d] H]; done. Qed.

Lemma writes_dangling h m l out : h !! l = None → writes h m (Some l) out → False.
Proof.
  intros Hl [[|d] H]; [done|]. simpl in H. unfold invoke_body in H.
  simpl in H. by rewrite Hl in H.
Qed.

Lemma writes_printLeft_unfold h l n out :
  h !! l = Some n →
  writes h printLeft_ (Some l) out ↔
  ∃ d, dispatch_printLeft (invoke h d) n "" = Some out.
Proof.
  intros Hl. split.
  - intros [[|d] H]; [done|]. exists d.
    by rewrite <-(printLeft_unfold _ _ _ _ _ Hl).
  - intros [d H]. exists (S d).
    change (printLeft h (S d) (Some l) "" = Some out).
    by rewrite (printLeft_unfold _ _ _ _ _ Hl).
Qed.

(** For the classes of borland_ast.cpp, [print] writes what [printLeft]
    writes, whatever the flag. *)
Lemma writes_print_printLeft h l n out :
  h !! l = Some n → overrides_printRight n = false →
  writes h print_ (Some l) out ↔ writes h printLeft_ (Some l) out.
Proof.
  intros Hl Hov.
  assert (∀ d s, printRight h (S d) (Some l) s = Some s) as HR.
  { intros d s. rewrite (printRight_unfold _ _ _ _ _ Hl).
    unfold dispatch_printRight. unfold overrides_printRight in Hov.
    by destruct (fields n). }
  split.
  - intros [[|d] H]; [done|].
    change (print h (S d) (Some l) "" = Some out) in H.
    rewrite (print_unfold _ _ _ _ _ Hl) in H. unfold Node_print in H.
    destruct (invoke h d printLeft_ (Some l) "") as [s1|] eqn:H1; [|done].
    cbn [mbind option_bind] in H.
    destruct (_has_right n).
    + destruct d as [|d]; [done|].
      fold (printRight h (S d)) in H. rewrite HR in H.
      injection H as <-. by exists (S d).
    + injection H as <-. by exists d.
  - intros [[|d] H]; [done|]. exists (S (S d)).
    change (print h (S (S d)) (Some l) "" = Some out).
    rewrite (print_unfold _ _ _ _ _ Hl). unfold Node_print.
    rewrite H. cbn [mbind option_bind].
    destruct (_has_right n); [|done]. apply HR.
Qed.

(** X1.  On a name object [str] returns the string of the object, within
    two nested calls and whatever the kind and the flag of the object; no
    bound on the depth of calls makes the fresh stream of [str] hold any
    other text. *)
Theorem NameNode_prints_its_name h l k r name depth :
  h !! l = Some (mkNode k r (NameNode name)) →
  Node_str h (S (S depth)) (Some l) = Some name ∧
  ∀ out, writes h print_ (Some l) out → out = name.
Proof.
  intros Hl.
  assert (∀ d, print h (S (S d)) (Some l) "" = Some name) as HP.
  { intros d. apply (print_of_printLeft _ _ _ _ _ _ Hl); [done..|].
    by rewrite (printLeft_unfold _ _ _ _ _ Hl). }
  split; [apply HP|].
  intros out Hout. eapply writes_det; [exact Hout|]. exists 2. apply HP.
Qed.

Lemma NameNode_prints_its_name_witness :
  Node_str [mkNode KName true (NameNode "TObject")] 2 (Some 0) = Some "TObject".
Proof.
  apply (NameNode_prints_its_name [mkNode KName true (NameNode "TObject")]
           0 KName true "TObject" 0).
  reflexivity.
Defined.

(** X2.  A nested name prints exactly when both of its children print, and
    then as the text of [_super], the token [::] and the text of [_name]. *)
Theorem NestedNameNode_prints_qualified h l k r super name out :
  h !! l = Some (mkNode k r (NestedNameNode super name)) →
  writes h print_ (Some l) out ↔
  ∃ a b, writes h print_ super a ∧ writes h print_ name b ∧ out = a +:+ "::" +:+ b.
Proof.
  intros Hl. rewrite (writes_print_printLeft _ _ _ _ Hl eq_refl).
  rewrite (writes_printLeft_unfold _ _ _ _ Hl).
  unfold dispatch_printLeft, NestedNameNode_printLeft. cbn [fields]. split.
  - intros [d H].
    destruct (invoke h d print_ super "") as [s1|] eqn:H1; [|done].
    cbn [mbind option_bind] in H.
    destruct (invoke_Some _ _ _ _ _ _ H) as (b & -> & Hb & _).
    exists s1, b. split; [by exists d|]. split; [done|].
    unfold put. by rewrite append_assoc.
  - intros (a & b & Ha & Hb & ->).
    destruct (writes_invoke _ _ _ _ Ha) as [da HA].
    destruct (writes_invoke _ _ _ _ Hb) as [db HB].
    exists (Nat.max da db).
    rewrite (HA _ "") by lia. cbn [mbind option_bind].
    rewrite HB by lia. unfold put. by rewrite !append_assoc.
Qed.

Lemma NestedNameNode_prints_qualified_witness :
  let h := [mkNode KName false (NameNode "System");
            mkNode KName false (NameNode "TObject");
            mkNode KNestedName false (NestedNameNode (Some 0) (Some 1))] in
  writes h print_ (Some 2) "System::TObject".
Proof.
  intros h.
  apply (proj2 (NestedNameNode_prints_qualified h 2 KNestedName false (Some 0) (Some 1)
                  "System::TObject" eq_refl)).
  exists "System", "TObject". split; [by exists 2|]. split; [by exists 2|reflexivity].
Defined.

(** X3.  A conversion operator prints exactly when its type prints, and then
    as the token [operator ] followed by the text of the type. *)
Theorem ConversionOperatorNode_prints_operator h l k r type out :
  h !! l = Some (mkNode k r (ConversionOperatorNode type)) →
  writes h print_ (Some l) out ↔
  ∃ t, writes h print_ type t ∧ out = "operator " +:+ t.
Proof.
  intros Hl. rewrite (writes_print_printLeft _ _ _ _ Hl eq_refl).
  rewrite (writes_printLeft_unfold _ _ _ _ Hl).
  unfold dispatch_printLeft, ConversionOperatorNode_printLeft. cbn [fields]. split.
  - intros [d H].
    destruct (invoke_Some _ _ _ _ _ _ H) as (t & -> & Ht & _). by exists t.
  - intros (t & Ht & ->).
    destruct (writes_invoke _ _ _ _ Ht) as [d HT].
    exists d. by rewrite HT.
Qed.

Lemma ConversionOperatorNode_prints_operator_witness :
  let h := [mkNode KOtherType false (TypeNode "bool" "");
            mkNode KConversionOperator false (ConversionOperatorNode (Some 0))] in
  writes h print_ (Some 1) "operator bool".
Proof.
  intros h.
  apply (proj2 (ConversionOperatorNode_prints_operator h 1 KConversionOperator false
                  (Some 0) "operator bool" eq_refl)).
  exists "bool". split; [by exists 2|reflexivity].
Defined.

(** X4.  A template prints exactly when its name prints and its parameter
    array, if there is one, prints; the text is the name, [<], the text of
    the parameters (nothing when there is no array) and [>]. *)
Theorem TemplateNode_prints_angle_brackets h l k r name params out :
  h !! l = Some (mkNode k r (TemplateNode name params)) →
  writes h print_ (Some l) out ↔
  ∃ n ps, writes h print_ name n ∧
          match params with
          | Some _ => writes h print_ params ps
          | None => ps = ""
          end ∧
          out = n +:+ "<" +:+ ps +:+ ">".
Proof.
  intros Hl. rewrite (writes_print_printLeft _ _ _ _ Hl eq_refl).
  rewrite (writes_printLeft_unfold _ _ _ _ Hl).
  unfold dispatch_printLeft, TemplateNode_printLeft. cbn [fields]. split.
  - intros [d H].
    destruct (invoke h d print_ name "") as [n|] eqn:Hn; [|done].
    cbn [mbind option_bind] in H. exists n.
    destruct params as [a|].
    + destruct (invoke h d print_ (Some a) (put n "<")) as [s3|] eqn:H3; [|done].
      cbn [mbind option_bind] in H. injection H as <-.
      destruct (invoke_Some _ _ _ _ _ _ H3) as (ps & -> & Hps & _).
      exists ps. split; [by exists d|]. split; [done|].
      unfold put. by rewrite !append_assoc.
    + cbn [mbind option_bind] in H. injection H as <-.
      exists "". split; [by exists d|]. split; [done|].
      unfold put. by rewrite !append_assoc.
  - intros (n & ps & Hn & Hps & ->).
    destruct (writes_invoke _ _ _ _ Hn) as [dn HN].
    destruct params as [a|].
    + destruct (writes_invoke _ _ _ _ Hps) as [dp HP].
      exists (Nat.max dn dp). rewrite (HN _ "") by lia. cbn [mbind option_bind].
      rewrite HP by lia. cbn [mbind option_bind].
      unfold put. by rewrite !append_assoc.
    + subst ps. exists dn. rewrite (HN _ "") by lia. cbn [mbind option_bind].
      unfold put. by rewrite !append_assoc.
Qed.

Lemma TemplateNode_prints_angle_brackets_witness :
  let h := [mkNode KName false (NameNode "TList");
            mkNode KOtherType false (TypeNode "int" "");
            mkNode KNodeArray false (NodeArray [Some 1]);
            mkNode KTemplateNode false (TemplateNode (Some 0) (Some 2))] in
  writes h print_ (Some 3) "TList<int>".
Proof.
  intros h.
  apply (proj2 (TemplateNode_prints_angle_brackets h 3 KTemplateNode false (Some 0) (Some 2)
                  "TList<int>" eq_refl)).
  exists "TList", "int". split; [by exists 2|]. split; [by exists 4|reflexivity].
Defined.

Lemma joined_merge o x outs :
  joined ((o +:+ ", " +:+ x) :: outs) = joined (o :: x :: outs).
Proof.
  destruct outs as [|y ys]; [reflexivity|].
  change ((o +:+ ", " +:+ x) +:+ ", " +:+ joined (y :: ys) =
          o +:+ ", " +:+ x +:+ ", " +:+ joined (y :: ys)).
  by rewrite !append_assoc.
Qed.

Lemma NodeArray_printOthers_inv h d others : ∀ o s',
  NodeArray_printOthers (invoke h d) others o = Some s' →
  ∃ outs, Forall2 (writes h print_) others outs ∧ s' = joined (o :: outs).
Proof.
  induction others as [|c others IH]; intros o s' H.
  - injection H as <-. by exists [].
  - cbn [NodeArray_printOthers] in H.
    destruct (invoke h d print_ c (put o ", ")) as [s1|] eqn:H1; [|done].
    cbn [mbind option_bind] in H.
    destruct (invoke_Some _ _ _ _ _ _ H1) as (x & -> & Hx & _).
    destruct (IH _ _ H) as (outs & Houts & ->).
    exists (x :: outs). split; [by constructor|].
    unfold put. rewrite append_assoc. apply joined_merge.
Qed.

(** X5.  An array prints exactly when every element prints, and then as the
    texts of the elements in order with [", "] between consecutive ones. *)
Theorem NodeArray_prints_joined h l k r nodes out :
  h !! l = Some (mkNode k r (NodeArray nodes)) →
  writes h print_ (Some l) out ↔
  ∃ outs, Forall2 (writes h print_) nodes outs ∧ out = joined outs.
Proof.
  intros Hl. split.
  - rewrite (writes_print_printLeft _ _ _ _ Hl eq_refl).
    rewrite (writes_printLeft_unfold _ _ _ _ Hl).
    unfold dispatch_printLeft, NodeArray_printLeft. cbn [fields].
    intros [d H]. destruct nodes as [|first others].
    + injection H as <-. by exists [].
    + destruct (invoke h d print_ first "") as [o|] eqn:Ho; [|done].
      cbn [mbind option_bind] in H.
      destruct (NodeArray_printOthers_inv _ _ _ _ _ H) as (outs & Houts & ->).
      exists (o :: outs). split; [|done]. constructor; [by exists d|done].
  - intros (outs & Houts & ->).
    destruct (Forall2_writes_invoke _ _ _ _ Houts) as [d Hd].
    exists (S (S d)).
    change (print h (S (S d)) (Some l) "" = Some ("" +:+ joined outs)).
    eapply NodeArray_print_joined; [exact Hl|exact Hd].
Qed.

Lemma NodeArray_prints_joined_witness :
  let h := [mkNode KOtherType false (TypeNode "char" "");
            mkNode KOtherType false (TypeNode "long" "");
            mkNode KNodeArray true (NodeArray [Some 0; Some 1; Some 0])] in
  writes h print_ (Some 2) "char, long, char".
Proof.
  intros h.
  apply (proj2 (NodeArray_prints_joined h 2 KNodeArray true [Some 0; Some 1; Some 0]
                  "char, long, char" eq_refl)).
  exists ["char"; "long"; "char"]. split; [|reflexivity].
  repeat constructor; by exists 2.
Defined.

(** X6.  A function node prints exactly when its function type's
    [printLeft], its name and its function type's [printRight] all return,
    and then as the three texts in this order. *)
Theorem FunctionNode_prints_iff h l k r name funcNode out :
  h !! l = Some (mkNode k r (FunctionNode name funcNode)) →
  writes h print_ (Some l) out ↔
  ∃ left nm right,
    writes h printLeft_ funcNode left ∧ writes h print_ name nm ∧
    writes h printRight_ funcNode right ∧ out = left +:+ nm +:+ right.
Proof.
  intros Hl. split.
  - rewrite (writes_print_printLeft _ _ _ _ Hl eq_refl).
    rewrite (writes_printLeft_unfold _ _ _ _ Hl).
    unfold dispatch_printLeft, FunctionNode_printLeft. cbn [fields].
    intros [d H].
    destruct (invoke h d printLeft_ funcNode "") as [left|] eqn:H1; [|done].
    cbn [mbind option_bind] in H.
    destruct (invoke h d print_ name left) as [s2|] eqn:H2; [|done].
    cbn [mbind option_bind] in H.
    destruct (invoke_Some _ _ _ _ _ _ H2) as (nm & -> & Hnm & _).
    destruct (invoke_Some _ _ _ _ _ _ H) as (right & -> & Hright & _).
    exists left, nm, right. split; [by exists d|]. split; [done|]. split; [done|].
    by rewrite append_assoc.
  - intros (left & nm & right & HL & HN & HR & ->).
    destruct (writes_invoke _ _ _ _ HL) as [d1 H1].
    destruct (writes_invoke _ _ _ _ HN) as [d2 H2].
    destruct (writes_invoke _ _ _ _ HR) as [d3 H3].
    exists (S (S (Nat.max (Nat.max d1 d2) d3))).
    change (print h (S (S (Nat.max (Nat.max d1 d2) d3))) (Some l) "" =
            Some ("" +:+ (left +:+ nm +:+ right))).
    eapply FunctionNode_print; [exact Hl|..]; intros t.
    + apply H1. lia.
    + apply H2. lia.
    + apply H3. lia.
Qed.

Lemma FunctionNode_prints_iff_witness :
  let h := [mkNode KOtherType true (TypeNode "long " "()");
            mkNode KName false (NameNode "Now");
            mkNode KFunction false (FunctionNode (Some 1) (Some 0))] in
  writes h print_ (Some 2) "long Now()".
Proof.
  intros h.
  apply (proj2 (FunctionNode_prints_iff h 2 KFunction false (Some 1) (Some 0)
                  "long Now()" eq_refl)).
  exists "long ", "Now", "()".
  split; [by exists 1|]. split; [by exists 2|]. split; [by exists 1|reflexivity].
Defined.

(** ** Identity and printing *)

Lemma NodeArray_printOthers_ext call call' others s :
  (∀ m p t, call m p t = call' m p t) →
  NodeArray_printOthers call others s = NodeArray_printOthers call' others s.
Proof.
  intros Hc. revert s. induction others as [|c others IH]; intros s; [done|].
  cbn [NodeArray_printOthers]. rewrite Hc.
  destruct (call' print_ c (put s ", ")); [apply IH|done].
Qed.

Lemma dispatch_printLeft_ext call call' n n' s :
  (∀ m p t, call m p t = call' m p t) → fields n = fields n' →
  dispatch_printLeft call n s = dispatch_printLeft call' n' s.
Proof.
  intros Hc Hf. unfold dispatch_printLeft. rewrite <-Hf.
  destruct (fields n) as [name fn|name params|name|super name|nodes|type|ret params|l r];
    try done.
  - unfold FunctionNode_printLeft. rewrite Hc.
    destruct (call' printLeft_ fn s); [|done]. cbn [mbind option_bind].
    rewrite Hc. destruct (call' print_ name _); [|done]. apply Hc.
  - unfold TemplateNode_printLeft. rewrite Hc.
    destruct (call' print_ name s); [|done]. cbn [mbind option_bind].
    destruct params; [|done]. by rewrite Hc.
  - unfold NestedNameNode_printLeft. rewrite Hc.
    destruct (call' print_ super s); [|done]. apply Hc.
  - unfold NodeArray_printLeft. destruct nodes as [|first others]; [done|].
    rewrite Hc. destruct (call' print_ first s); [|done].
    by apply NodeArray_printOthers_ext.
  - unfold ConversionOperatorNode_printLeft. apply Hc.
  - unfold FunctionTypeNode_printLeft. by rewrite Hc.
Qed.

Lemma dispatch_printRight_ext call call' n n' s :
  (∀ m p t, call m p t = call' m p t) → fields n = fields n' →
  dispatch_printRight call n s = dispatch_printRight call' n' s.
Proof.
  intros Hc Hf. unfold dispatch_printRight. rewrite <-Hf.
  destruct (fields n); try done.
  unfold FunctionTypeNode_printRight. by rewrite Hc.
Qed.

(** The flag of an object that inherits [printRight] has no effect on what
    [print] returns. *)
Lemma Node_print_flag h d l n s :
  h !! l = Some n → overrides_printRight n = false →
  Node_print (invoke h d) n (Some l) s = invoke h d printLeft_ (Some l) s.
Proof.
  intros Hl Hov. unfold Node_print.
  destruct (invoke h d printLeft_ (Some l) s) as [s1|] eqn:H1; [|done].
  cbn [mbind option_bind]. destruct (_has_right n); [|done].
  destruct d as [|d]; [done|].
  fold (printRight h (S d)). rewrite (printRight_unfold _ _ _ _ _ Hl).
  unfold dispatch_printRight. unfold overrides_printRight in Hov.
  by destruct (fields n).
Qed.

(** X7.  Printing does not look at identity: two objects of one store with
    the same members answer every call with the same result, whatever the
    bound on the depth of calls. *)
Theorem same_members_print_alike h l1 l2 n1 n2 depth m s :
  h !! l1 = Some n1 → h !! l2 = Some n2 → same_members n1 n2 →
  invoke h depth m (Some l1) s = invoke h depth m (Some l2) s.
Proof.
  intros H1 H2 [Hf Hr].
  assert (∀ d t, invoke h d printLeft_ (Some l1) t = invoke h d printLeft_ (Some l2) t)
    as HL.
  { intros [|d] t; [done|].
    change (printLeft h (S d) (Some l1) t = printLeft h (S d) (Some l2) t).
    rewrite (printLeft_unfold _ _ _ _ _ H1), (printLeft_unfold _ _ _ _ _ H2).
    by apply dispatch_printLeft_ext. }
  assert (∀ d t, invoke h d printRight_ (Some l1) t = invoke h d printRight_ (Some l2) t)
    as HR.
  { intros [|d] t; [done|].
    change (printRight h (S d) (Some l1) t = printRight h (S d) (Some l2) t).
    rewrite (printRight_unfold _ _ _ _ _ H1), (printRight_unfold _ _ _ _ _ H2).
    by apply dispatch_printRight_ext. }
  destruct m; [|apply HL|apply HR].
  destruct depth as [|d]; [done|].
  change (print h (S d) (Some l1) s = print h (S d) (Some l2) s).
  rewrite (print_unfold _ _ _ _ _ H1), (print_unfold _ _ _ _ _ H2).
  destruct (overrides_printRight n1) eqn:Hov.
  - unfold Node_print. rewrite HL, (Hr eq_refl).
    destruct (invoke h d printLeft_ (Some l2) s); [|done]. cbn [mbind option_bind].
    destruct (_has_right n2); [apply HR|done].
  - rewrite (Node_print_flag _ _ _ _ _ H1 Hov), (Node_print_flag _ _ _ _ _ H2).
    + apply HL.
    + unfold overrides_printRight in *. by rewrite <-Hf.
Qed.

(** Two function nodes built from the same arguments are two objects, and
    print alike. *)
Lemma same_members_print_alike_witness :
  let h := [mkNode KOtherType true (TypeNode "void " "()");
            mkNode KName false (NameNode "Free")] in
  let r1 := FunctionNode_create (Some 1) (Some 0) h in
  let r2 := FunctionNode_create (Some 1) (Some 0) r1.1 in
  r1.2 ≠ r2.2 ∧
  print r2.1 4 r1.2 "" = print r2.1 4 r2.2 "" ∧
  print r2.1 4 r2.2 "" = Some "void Free()".
Proof.
  intros h r1 r2. split; [discriminate|]. split; [|reflexivity].
  apply (same_members_print_alike r2.1 2 3
           (mkNode KFunction false (FunctionNode (Some 1) (Some 0)))
           (mkNode KFunction false (FunctionNode (Some 1) (Some 0))) 4 print_ "");
    [reflexivity|reflexivity|by split].
Defined.

(** ** Null children *)

Lemma invoke_nullptr h depth m s : invoke h depth m nullptr s = None.
Proof. by destruct depth. Qed.

Lemma NodeArray_printOthers_None call others c s :
  c ∈ others → (∀ t, call print_ c t = None) →
  NodeArray_printOthers call others s = None.
Proof.
  intros Hin Hc. revert s.
  induction others as [|x others IH]; intros s; [by apply elem_of_nil in Hin|].
  cbn [NodeArray_printOthers]. apply elem_of_cons in Hin as [<-|Hin].
  - by rewrite Hc.
  - destruct (call print_ x (put s ", ")); [by apply IH|done].
Qed.

Lemma NodeArray_printLeft_None call nodes c s :
  c ∈ nodes → (∀ t, call print_ c t = None) →
  NodeArray_printLeft call nodes s = None.
Proof.
  intros Hin Hc. destruct nodes as [|x others]; [by apply elem_of_nil in Hin|].
  cbn [NodeArray_printLeft]. apply elem_of_cons in Hin as [<-|Hin].
  - by rewrite Hc.
  - destruct (call print_ x s); [by eapply NodeArray_printOthers_None|done].
Qed.

(** X8.  No class of borland_ast.cpp tests a child pointer before it calls
    through it, the parameter array of a template apart: an object with a
    null child never prints, under any bound and onto any stream. *)
Theorem null_child_never_prints h l n depth s :
  h !! l = Some n → null_child (fields n) →
  print h depth (Some l) s = None.
Proof.
  intros Hl Hnull.
  assert (overrides_printRight n = false) as Hov.
  { unfold overrides_printRight. by destruct (fields n). }
  destruct depth as [|d]; [done|].
  rewrite (print_unfold _ _ _ _ _ Hl), (Node_print_flag _ _ _ _ _ Hl Hov).
  destruct d as [|d]; [done|].
  fold (printLeft h (S d)). rewrite (printLeft_unfold _ _ _ _ _ Hl).
  unfold dispatch_printLeft.
  destruct (fields n) as [name fn|name params|name|super name|nodes|type|ret params|a b];
    simpl in Hnull; try done.
  - unfold FunctionNode_printLeft. destruct Hnull as [-> | ->].
    + destruct (invoke h d printLeft_ fn s); [|done]. cbn [mbind option_bind].
      by rewrite invoke_nullptr.
    + by rewrite invoke_nullptr.
  - unfold TemplateNode_printLeft. subst name. by rewrite invoke_nullptr.
  - unfold NestedNameNode_printLeft. destruct Hnull as [-> | ->].
    + by rewrite invoke_nullptr.
    + destruct (invoke h d print_ super s); [|done]. cbn [mbind option_bind].
      by rewrite invoke_nullptr.
  - eapply NodeArray_printLeft_None; [exact Hnull|]. intros t. apply invoke_nullptr.
  - unfold ConversionOperatorNode_printLeft. subst type. by rewrite invoke_nullptr.
Qed.

(** [addNode] takes a null pointer, [get] hands it back, and the array no
    longer prints. *)
Lemma null_child_never_prints_witness :
  let a := NodeArray_create false [mkNode KName false (NameNode "x")] in
  ∃ h, NodeArray_addNodes a.2 [Some 0; nullptr] a.1 = Some h ∧
       NodeArray_get [Some 0; nullptr] 1 = Returns nullptr ∧
       print h 50 a.2 "" = None.
Proof.
  intros a. eexists. split; [reflexivity|]. split; [reflexivity|].
  apply (null_child_never_prints _ 1
           (mkNode KNodeArray false (NodeArray [Some 0; nullptr])) 50 "");
    [reflexivity|].
  simpl. by apply (list_elem_of_lookup_2 _ 1).
Defined.

(** ** Arrays that hold themselves *)

Lemma self_array_never_prints h l n nodes :
  h !! l = Some n → fields n = NodeArray nodes → Some l ∈ nodes →
  ∀ depth s, print h depth (Some l) s = None.
Proof.
  intros Hl Hf Hin depth.
  induction depth as [depth IH] using lt_wf_ind. intros s.
  assert (overrides_printRight n = false) as Hov.
  { unfold overrides_printRight. by rewrite Hf. }
  destruct depth as [|d]; [done|].
  rewrite (print_unfold _ _ _ _ _ Hl), (Node_print_flag _ _ _ _ _ Hl Hov).
  destruct d as [|d]; [done|].
  fold (printLeft h (S d)). rewrite (printLeft_unfold _ _ _ _ _ Hl).
  unfold dispatch_printLeft. rewrite Hf.
  eapply NodeArray_printLeft_None; [exact Hin|].
  intros t. apply (IH d). lia.
Qed.

(** X9.  [addNode] does not look at the pointer it is handed: an array can
    be added to itself, and from then on printing it returns under no bound
    on the depth of calls. *)
Theorem NodeArray_addNode_itself h l k r nodes :
  h !! l = Some (mkNode k r (NodeArray nodes)) →
  ∃ h', NodeArray_addNode (Some l) (Some l) h = Some h' ∧
        ∀ depth s, print h' depth (Some l) s = None.
Proof.
  intros Hl. unfold NodeArray_addNode. simpl. rewrite Hl. simpl.
  eexists. split; [reflexivity|].
  eapply self_array_never_prints.
  - apply list_lookup_insert_eq. by eapply lookup_lt_Some.
  - reflexivity.
  - apply elem_of_app. right. by apply list_elem_of_singleton.
Qed.

Lemma NodeArray_addNode_itself_witness :
  ∃ h', NodeArray_addNode (Some 0) (Some 0) (NodeArray_create false []).1 = Some h' ∧
        ∀ depth s, print h' depth (Some 0) s = None.
Proof.
  apply (NodeArray_addNode_itself (NodeArray_create false []).1 0 KNodeArray false []).
  reflexivity.
Defined.

(** ** Appending and reading back *)

(** X10.  [addNode] always succeeds on an array.  It writes the array object
    and no other; the array keeps its elements in place and gains the new
    pointer at the end, so that the size grows by one, [get] at the old size
    returns the new pointer, [get] below the old size returns what it
    returned before, and the array is not empty. *)
Theorem NodeArray_addNode_get h l k r nodes node :
  h !! l = Some (mkNode k r (NodeArray nodes)) →
  ∃ h', NodeArray_addNode (Some l) node h = Some h' ∧
        h' !! l = Some (mkNode k r (NodeArray (nodes ++ [node]))) ∧
        (∀ l', l' ≠ l → h' !! l' = h !! l') ∧
        NodeArray_size (nodes ++ [node]) = S (NodeArray_size nodes) ∧
        NodeArray_get (nodes ++ [node]) (NodeArray_size nodes) = Returns node ∧
        (∀ i, i < NodeArray_size nodes →
              NodeArray_get (nodes ++ [node]) i = NodeArray_get nodes i) ∧
        NodeArray_empty (nodes ++ [node]) = false.
Proof.
  intros Hl. unfold NodeArray_addNode. simpl. rewrite Hl. simpl.
  eexists. split; [reflexivity|]. split.
  { apply list_lookup_insert_eq. by eapply lookup_lt_Some. }
  split.
  { intros l' Hne. by apply list_lookup_insert_ne. }
  unfold NodeArray_size, NodeArray_get, NodeArray_size, vector_at.
  rewrite length_app. simpl. split; [lia|]. split.
  { case_decide; [|lia]. by rewrite list_lookup_middle. }
  split.
  { intros i Hi. repeat case_decide; try lia.
    by rewrite lookup_app_l. }
  by destruct nodes.
Qed.

Lemma NodeArray_addNode_get_witness :
  let h := [mkNode KName false (NameNode "a");
            mkNode KNodeArray false (NodeArray [Some 0])] in
  ∃ h', NodeArray_addNode (Some 1) (Some 0) h = Some h' ∧
        h' !! 1 = Some (mkNode KNodeArray false (NodeArray [Some 0; Some 0])) ∧
        h' !! 0 = h !! 0.
Proof.
  intros h.
  destruct (NodeArray_addNode_get h 1 KNodeArray false [Some 0] (Some 0) eq_refl)
    as (h' & Hadd & Hl & Hframe & _).
  exists h'. split; [exact Hadd|]. split; [exact Hl|]. by apply Hframe.
Defined.

(** X11.  What [get] returns tells an element from a miss only when it is
    not null: a non-null result is the pointer stored at that index, and a
    null result means that the index is out of range or that the pointer
    stored there is itself null. *)
Theorem NodeArray_get_result nodes i :
  (∀ l, NodeArray_get nodes i = Returns (Some l) ↔ nodes !! i = Some (Some l)) ∧
  (NodeArray_get nodes i = Returns nullptr ↔
     NodeArray_size nodes ≤ i ∨ nodes !! i = Some nullptr).
Proof.
  unfold NodeArray_get, NodeArray_size, vector_at.
  destruct (nodes !! i) as [p|] eqn:Hi.
  - pose proof (lookup_lt_Some _ _ _ Hi). case_decide; [|lia]. split.
    + intros l. split; intros [= ->]; done.
    + split.
      * intros [= ->]. by right.
      * intros [?|[= ->]]; [lia|done].
  - pose proof (lookup_ge_None_1 _ _ Hi). case_decide; [lia|]. split.
    + intros l. split; intros [=].
    + split; [by left|done].
Qed.

(** ** New objects *)

(** X12.  A new array is an object that was not in the store before; it is
    empty, has size zero, answers every [get] with the null pointer, and
    prints as the empty text. *)
Theorem NodeArray_create_empty d h :
  ∃ l, (NodeArray_create d h).2 = Some l ∧ h !! l = None ∧
       (NodeArray_create d h).1 !! l = Some (mkNode KNodeArray d (NodeArray [])) ∧
       NodeArray_empty [] = true ∧ NodeArray_size [] = 0 ∧
       (∀ i, NodeArray_get [] i = Returns nullptr) ∧
       ∀ s, print (NodeArray_create d h).1 2 (Some l) s = Some s.
Proof.
  exists (length h). split; [done|]. split.
  { apply lookup_ge_None_2. lia. }
  assert ((NodeArray_create d h).1 !! length h =
          Some (mkNode KNodeArray d (NodeArray []))) as Hl
    by apply list_lookup_middle, eq_refl.
  split; [exact Hl|]. split; [done|]. split; [done|]. split; [done|].
  intros s. by apply (NodeArray_print_empty _ 0 _ _ _ _ Hl).
Qed.

(** X13.  The factories of function nodes, template nodes, arrays and
    conversion operators do not intern: asked twice for the same arguments,
    each returns two different objects, both new to the store. *)
Theorem uncached_factories_allocate d h :
  (∀ name funcType,
     let r1 := FunctionNode_create name funcType h in
     let r2 := FunctionNode_create name funcType r1.1 in
     deref h r1.2 = None ∧ deref r1.1 r2.2 = None ∧ r1.2 ≠ r2.2 ∧
     is_Some (deref r2.1 r1.2) ∧ deref r2.1 r1.2 = deref r2.1 r2.2) ∧
  (∀ name params,
     let r1 := TemplateNode_create d name params h in
     let r2 := TemplateNode_create d name params r1.1 in
     deref h r1.2 = None ∧ deref r1.1 r2.2 = None ∧ r1.2 ≠ r2.2 ∧
     is_Some (deref r2.1 r1.2) ∧ deref r2.1 r1.2 = deref r2.1 r2.2) ∧
  (let r1 := NodeArray_create d h in
   let r2 := NodeArray_create d r1.1 in
   deref h r1.2 = None ∧ deref r1.1 r2.2 = None ∧ r1.2 ≠ r2.2 ∧
   is_Some (deref r2.1 r1.2) ∧ deref r2.1 r1.2 = deref r2.1 r2.2) ∧
  (∀ type c,
     let r1 := ConversionOperatorNode_create d type (mkState h c) in
     let r2 := ConversionOperatorNode_create d type r1.1 in
     deref h r1.2 = None ∧ deref (heap r1.1) r2.2 = None ∧ r1.2 ≠ r2.2 ∧
     is_Some (deref (heap r2.1) r1.2) ∧
     deref (heap r2.1) r1.2 = deref (heap r2.1) r2.2 ∧
     context r2.1 = c).
Proof.
  assert (∀ n : Node,
    deref h (Some (length h)) = None ∧
    deref (h ++ [n]) (Some (length (h ++ [n]))) = None ∧
    Some (length h) ≠ Some (length (h ++ [n])) ∧
    is_Some (deref ((h ++ [n]) ++ [n]) (Some (length h))) ∧
    deref ((h ++ [n]) ++ [n]) (Some (length h)) =
      deref ((h ++ [n]) ++ [n]) (Some (length (h ++ [n])))) as H.
  { intros n. simpl. rewrite !length_app. simpl.
    split; [apply lookup_ge_None_2; lia|].
    split; [apply lookup_ge_None_2; rewrite length_app; simpl; lia|].
    split; [intros [=]; lia|].
    assert (((h ++ [n]) ++ [n]) !! length h = Some n) as ->.
    { rewrite <-app_assoc. by apply list_lookup_middle. }
    split; [by eexists|].
    symmetry. apply list_lookup_middle. rewrite length_app. simpl. lia. }
  split; [|split; [|split]].
  - intros name funcType. apply H.
  - intros name params. apply H.
  - apply H.
  - intros type c. simpl.
    destruct (H (mkNode KConversionOperator d (ConversionOperatorNode type)))
      as (H1 & H2 & H3 & H4 & H5).
    done.
Qed.

(** ** Qualifiers, flag by flag *)

(** X14.  On a fresh stream each helper leaves one token per flag that is
    set, [volatile] first, and nothing for a flag that is not set; the
    stream stays empty exactly when no flag is set.  The two helpers leave
    the same tokens: [printSpaceL] puts the blank before each token and
    [printSpaceR] after it. *)
Theorem Qualifiers_print_by_flags q :
  Qualifiers_printSpaceL q "" =
    (if Qualifiers_isVolatile q then " volatile" else "")
      +:+ (if Qualifiers_isConst q then " const" else "") ∧
  Qualifiers_printSpaceR q "" =
    (if Qualifiers_isVolatile q then "volatile " else "")
      +:+ (if Qualifiers_isConst q then "const " else "") ∧
  Qualifiers_printSpaceL q "" +:+ " " = " " +:+ Qualifiers_printSpaceR q "" ∧
  (Qualifiers_printSpaceL q "" = "" ↔
     Qualifiers_isVolatile q = false ∧ Qualifiers_isConst q = false) ∧
  (Qualifiers_printSpaceR q "" = "" ↔
     Qualifiers_isVolatile q = false ∧ Qualifiers_isConst q = false).
Proof.
  unfold Qualifiers_isVolatile, Qualifiers_isConst,
    Qualifiers_printSpaceL, Qualifiers_printSpaceR, put.
  destruct q as [[] []]; cbn [_isVolatile _isConst];
    (split; [done|]); (split; [done|]); (split; [done|]);
    split; split; (try done); by intros [? ?].
Qed.

(** ** The flag and the classes that inherit [printRight] *)

Lemma same_members_deref h h' p :
  Forall2 same_members h h' →
  match deref h p, deref h' p with
  | Some n, Some n' => same_members n n'
  | None, None => True
  | _, _ => False
  end.
Proof.
  intros HF. destruct p as [l|]; simpl; [|done].
  destruct (h !! l) as [n|] eqn:Hl.
  - destruct (Forall2_lookup_l _ _ _ _ _ HF Hl) as (n' & -> & Hs). done.
  - destruct (h' !! l) as [n'|] eqn:Hl'; [|done].
    destruct (Forall2_lookup_r _ _ _ _ _ HF Hl') as (n & Hn & _). congruence.
Qed.

(** X15.  No class of borland_ast.cpp overrides [printRight], so the flag
    that guards the call changes nothing for them: two stores whose objects
    have the same members, and the same flag wherever the class has a
    [printRight] of its own, answer every call alike. *)
Theorem has_right_flag_is_idle h h' :
  Forall2 same_members h h' →
  ∀ depth m p s, invoke h depth m p s = invoke h' depth m p s.
Proof.
  intros HF depth. induction depth as [|d IH]; intros m p s; [done|].
  pose proof (same_members_deref h h' p HF) as Hp.
  destruct p as [l|]; [|done]. simpl in Hp.
  destruct (h !! l) as [n|] eqn:Hl; destruct (h' !! l) as [n'|] eqn:Hl'; try done.
  - destruct Hp as [Hf Hr]. destruct m.
    + change (print h (S d) (Some l) s = print h' (S d) (Some l) s).
      rewrite (print_unfold _ _ _ _ _ Hl), (print_unfold _ _ _ _ _ Hl').
      destruct (overrides_printRight n) eqn:Hov.
      * unfold Node_print. rewrite IH, (Hr eq_refl).
        destruct (invoke h' d printLeft_ (Some l) s); [|done].
        cbn [mbind option_bind]. destruct (_has_right n'); [apply IH|done].
      * rewrite (Node_print_flag _ _ _ _ _ Hl Hov), (Node_print_flag _ _ _ _ _ Hl').
        -- apply IH.
        -- unfold overrides_printRight in *. by rewrite <-Hf.
    + change (printLeft h (S d) (Some l) s = printLeft h' (S d) (Some l) s).
      rewrite (printLeft_unfold _ _ _ _ _ Hl), (printLeft_unfold _ _ _ _ _ Hl').
      by apply dispatch_printLeft_ext.
    + change (printRight h (S d) (Some l) s = printRight h' (S d) (Some l) s).
      rewrite (printRight_unfold _ _ _ _ _ Hl), (printRight_unfold _ _ _ _ _ Hl').
      by apply dispatch_printRight_ext.
  - simpl. unfold invoke_body. simpl. by rewrite Hl, Hl'.
Qed.

(** Whichever default the header gives the flag, a template over an array
    of two names prints the same. *)
Lemma has_right_flag_is_idle_witness :
  let h0 := [mkNode KName false (NameNode "T"); mkNode KName false (NameNode "U")] in
  let build d :=
    let a := NodeArray_create d h0 in
    h ← NodeArray_addNodes a.2 [Some 1; Some 0] a.1;
    Some (TemplateNode_create d (Some 0) a.2 h) in
  ∃ r r', build true = Some r ∧ build false = Some r' ∧ r.2 = r'.2 ∧
          print r.1 6 r.2 "" = print r'.1 6 r'.2 "" ∧
          print r'.1 6 r'.2 "" = Some "T<U, T>".
Proof.
  intros h0 build. eexists _, _.
  split; [reflexivity|]. split; [reflexivity|]. split; [reflexivity|].
  split; [|reflexivity].
  apply (has_right_flag_is_idle
           [mkNode KName false (NameNode "T"); mkNode KName false (NameNode "U");
            mkNode KNodeArray true (NodeArray [Some 1; Some 0]);
            mkNode KTemplateNode true (TemplateNode (Some 0) (Some 2))]
           [mkNode KName false (NameNode "T"); mkNode KName false (NameNode "U");
            mkNode KNodeArray false (NodeArray [Some 1; Some 0]);
            mkNode KTemplateNode false (TemplateNode (Some 0) (Some 2))]).
  repeat constructor; discriminate.
Defined.

(** ** Stores built children first *)

Lemma writes_print_compose h l n o1 o2 :
  h !! l = Some n →
  writes h printLeft_ (Some l) o1 → writes h printRight_ (Some l) o2 →
  ∃ out, writes h print_ (Some l) out.
Proof.
  intros Hl H1 H2.
  destruct (writes_invoke _ _ _ _ H1) as [d1 HL].
  destruct (writes_invoke _ _ _ _ H2) as [d2 HR].
  exists (if _has_right n then o1 +:+ o2 else o1). exists (S (Nat.max d1 d2)).
  change (print h (S (Nat.max d1 d2)) (Some l) "" =
          Some (if _has_right n then o1 +:+ o2 else o1)).
  rewrite (print_unfold _ _ _ _ _ Hl). unfold Node_print.
  rewrite (HL _ "") by lia. cbn [mbind option_bind].
  destruct (_has_right n); [|done]. rewrite HR by lia. done.
Qed.

Lemma writes_printLeft_intro h l n d out :
  h !! l = Some n →
  dispatch_printLeft (invoke h d) n "" = Some out →
  writes h printLeft_ (Some l) out.
Proof. intros Hl H. apply (writes_printLeft_unfold _ _ _ _ Hl). by exists d. Qed.

Lemma writes_printRight_intro h l n d out :
  h !! l = Some n →
  dispatch_printRight (invoke h d) n "" = Some out →
  writes h printRight_ (Some l) out.
Proof.
  intros Hl H. exists (S d).
  change (printRight h (S d) (Some l) "" = Some out).
  by rewrite (printRight_unfold _ _ _ _ _ Hl).
Qed.

Lemma below_returns rank h l k p m :
  rank l = k →
  (∀ j, j < k → ∀ l', rank l' = j → is_Some (h !! l') →
        ∀ m, ∃ out, invoke h (2 * S j) m (Some l') "" = Some out) →
  below rank h l p →
  ∃ out, ∀ t, invoke h (2 * k) m p t = Some (t +:+ out).
Proof.
  intros Hk IH (l' & -> & Hsome & Hlt).
  destruct (IH (rank l') ltac:(lia) l' eq_refl Hsome m) as [out Hout].
  exists out. intros t. rewrite invoke_append.
  by rewrite (invoke_mono h (2 * S (rank l')) (2 * k) ltac:(lia) _ _ _ _ Hout).
Qed.

Lemma Forall_below_return rank h l k nodes :
  rank l = k →
  (∀ j, j < k → ∀ l', rank l' = j → is_Some (h !! l') →
        ∀ m, ∃ out, invoke h (2 * S j) m (Some l') "" = Some out) →
  Forall (below rank h l) nodes →
  ∃ outs, Forall2 (λ c out, ∀ t, invoke h (2 * k) print_ c t = Some (t +:+ out))
            nodes outs.
Proof.
  intros Hk IH. induction 1 as [|c cs Hc _ [outs IHc]]; [by exists []|].
  destruct (below_returns rank h l k c print_ Hk IH Hc) as [o Ho].
  exists (o :: outs). by constructor.
Qed.

(** X16.  Let the objects of a store be ranked so that every child pointer
    leads to an object of the store that ranks below its parent (the
    parameter array of a template may be null instead).  Then every call on
    an object of rank [r] returns within [2 * (r + 1)] nested calls: no null
    pointer is met, and the depth of the recursion is bounded by the
    rank. *)
Theorem ranked_prints_within rank h :
  ranked rank h →
  ∀ l, is_Some (h !! l) →
  ∀ m, ∃ out, invoke h (2 * S (rank l)) m (Some l) "" = Some out.
Proof.
  intros Hr.
  assert (∀ k l, rank l = k → is_Some (h !! l) →
          ∀ m, ∃ out, invoke h (2 * S k) m (Some l) "" = Some out) as H;
    [|by intros l; apply H].
  intros k. induction k as [k IH] using lt_wf_ind. intros l Hk [n Hl].
  pose proof (Hr l n Hl) as Hb.
  pose proof (λ p m, below_returns rank h l k p m Hk IH) as Hold.
  assert (∃ o2, invoke h (S (2 * k)) printRight_ (Some l) "" = Some o2) as [o2 HR].
  { change (∃ o2, printRight h (S (2 * k)) (Some l) "" = Some o2).
    rewrite (printRight_unfold _ _ _ _ _ Hl). unfold dispatch_printRight.
    destruct (fields n) as [| | | | | |ret params|a b]; try by eexists.
    destruct Hb as [_ Hp]. destruct (Hold _ print_ Hp) as (ps & Hd).
    unfold FunctionTypeNode_printRight. rewrite Hd. by eexists. }
  assert (∃ o1, invoke h (S (2 * k)) printLeft_ (Some l) "" = Some o1) as [o1 HL].
  { change (∃ o1, printLeft h (S (2 * k)) (Some l) "" = Some o1).
    rewrite (printLeft_unfold _ _ _ _ _ Hl). unfold dispatch_printLeft.
    destruct (fields n) as [name fn|name params|name|super name|nodes|type|ret params|a b].
    - destruct Hb as [Hn Hfn].
      destruct (Hold _ printLeft_ Hfn) as (o & H1).
      destruct (Hold _ print_ Hn) as (o' & H2).
      destruct (Hold _ printRight_ Hfn) as (o'' & H3).
      unfold FunctionNode_printLeft. rewrite H1. cbn [mbind option_bind].
      rewrite H2. cbn [mbind option_bind]. rewrite H3. by eexists.
    - destruct Hb as [Hn Hp].
      destruct (Hold _ print_ Hn) as (o & H1).
      unfold TemplateNode_printLeft. rewrite H1. cbn [mbind option_bind].
      destruct Hp as [-> | Hp]; [by eexists|].
      destruct (Hold _ print_ Hp) as (o' & H2).
      destruct Hp as (lp & -> & _). rewrite H2. by eexists.
    - by eexists.
    - destruct Hb as [Hs Hn].
      destruct (Hold _ print_ Hs) as (o & H1).
      destruct (Hold _ print_ Hn) as (o' & H2).
      unfold NestedNameNode_printLeft. rewrite H1. cbn [mbind option_bind].
      rewrite H2. by eexists.
    - destruct (Forall_below_return rank h l k nodes Hk IH Hb) as [outs Houts].
      eexists. by apply NodeArray_printLeft_joined.
    - destruct (Hold _ print_ Hb) as (o & H1).
      unfold ConversionOperatorNode_printLeft. rewrite H1. by eexists.
    - destruct Hb as [Hret _]. destruct (Hold _ print_ Hret) as (o & H1).
      unfold FunctionTypeNode_printLeft. rewrite H1. by eexists.
    - by eexists. }
  replace (2 * S k) with (S (S (2 * k))) by lia.
  intros [| |].
  - change (∃ out, print h (S (S (2 * k))) (Some l) "" = Some out).
    rewrite (print_unfold _ _ _ _ _ Hl). unfold Node_print.
    rewrite HL. cbn [mbind option_bind].
    destruct (_has_right n); [|by eexists].
    rewrite invoke_append, HR. by eexists.
  - exists o1. by apply (invoke_S h (S (2 * k))).
  - exists o2. by apply (invoke_S h (S (2 * k))).
Qed.

(** An array created before the names it is given: the array ranks above
    its elements, though its address is the lowest. *)
Lemma ranked_prints_within_witness :
  let h := [mkNode KNodeArray false (NodeArray [Some 1; Some 2; Some 1]);
            mkNode KName false (NameNode "a");
            mkNode KName false (NameNode "b")] in
  ∃ out, invoke h 4 print_ (Some 0) "" = Some out.
Proof.
  intros h.
  apply (ranked_prints_within (λ l, match l with 0 => 1 | _ => 0 end) h);
    [|by eexists].
  intros [|[|[|l]]] n Hl; simpl in Hl; try done; injection Hl as <-; simpl;
    [|done..].
  repeat constructor; eexists; (split; [reflexivity|]); (split; [by eexists|]);
    simpl; lia.
Defined.

(** A store built children first is ranked by the addresses. *)
Lemma well_built_ranked h : well_built h → ranked (λ l, l) h.
Proof.
  intros Hwb l n Hl. pose proof (Hwb l n Hl) as Hb.
  pose proof (lookup_lt_Some _ _ _ Hl) as Hlt.
  assert (∀ p, older l p → below (λ l, l) h l p) as Hold.
  { intros p (l' & -> & Hl'). exists l'. split; [done|]. split; [|done].
    apply lookup_lt_is_Some_2. lia. }
  destruct (fields n); simpl in *; try done.
  - destruct Hb. split; by apply Hold.
  - destruct Hb as [? [?|?]]; (split; [by apply Hold|]); [by left|right; by apply Hold].
  - destruct Hb. split; by apply Hold.
  - eapply Forall_impl; [exact Hb|exact Hold].
  - by apply Hold.
  - destruct Hb. split; by apply Hold.
Qed.

Lemma well_built_nil : well_built [].
Proof. by intros l n. Qed.

Lemma older_mono l l' p : l ≤ l' → older l p → older l' p.
Proof. intros Hle (x & -> & Hx). exists x. split; [done|lia]. Qed.

Lemma well_built_new h n :
  well_built h → built_before (length h) (fields n) → well_built (new h n).1.
Proof.
  intros Hwb Hn l x. simpl. intros Hl.
  destruct (decide (l < length h)) as [Hlt|Hge].
  - rewrite lookup_app_l in Hl by done. by apply Hwb.
  - rewrite lookup_app_r in Hl by lia.
    destruct (l - length h) as [|i] eqn:Hi; simpl in Hl; [|done].
    injection Hl as <-. by replace l with (length h) by lia.
Qed.

Lemma well_built_addNode h l node h' :
  well_built h → older l node →
  NodeArray_addNode (Some l) node h = Some h' → well_built h'.
Proof.
  intros Hwb Hold. unfold NodeArray_addNode. simpl.
  destruct (h !! l) as [n|] eqn:Hl; simpl; [|done].
  destruct (fields n) as [| | | |nodes| | |] eqn:Hf; try done.
  intros [= <-] l' x Hl'.
  destruct (decide (l' = l)) as [->|Hne].
  - rewrite list_lookup_insert_eq in Hl' by (by eapply lookup_lt_Some).
    injection Hl' as <-. simpl. apply Forall_app. split.
    + pose proof (Hwb l n Hl) as Hb. by rewrite Hf in Hb.
    + by constructor.
  - rewrite list_lookup_insert_ne in Hl' by done. by apply Hwb.
Qed.

(** X17.  The empty store is built children first, and stays so under every
    factory that is handed pointers to objects of the store (a template may
    be handed no parameter array) and under [addNode] when the pointer added
    is to an object older than the array. *)
Theorem factories_keep_well_built d h :
  well_built h →
  (∀ name funcType,
     older (length h) name → older (length h) funcType →
     well_built (FunctionNode_create name funcType h).1) ∧
  (∀ name params,
     older (length h) name → params = nullptr ∨ older (length h) params →
     well_built (TemplateNode_create d name params h).1) ∧
  well_built (NodeArray_create d h).1 ∧
  (∀ type c,
     older (length h) type →
     well_built (heap (ConversionOperatorNode_create d type (mkState h c)).1)) ∧
  (∀ name c, well_built (heap (NameNode_create name (mkState h c)).1)) ∧
  (∀ super name c,
     older (length h) super → older (length h) name →
     well_built (heap (NestedNameNode_create super name (mkState h c)).1)) ∧
  (∀ l node h',
     older l node → NodeArray_addNode (Some l) node h = Some h' → well_built h').
Proof.
  intros Hwb. repeat split.
  - intros name funcType Hn Hf. by apply (well_built_new h (mkNode _ _ _)).
  - intros name params Hn Hp. by apply (well_built_new h (mkNode _ _ _)).
  - apply (well_built_new h (mkNode _ _ _)); [done|]. constructor.
  - intros type c Ht. by apply (well_built_new h (mkNode _ _ _)).
  - intros name c. destruct (names c !! name) as [l|] eqn:Hl.
    + by rewrite (NameNode_create_hit _ (mkState h c) _ Hl).
    + rewrite (NameNode_create_miss _ (mkState h c) Hl).
      by apply (well_built_new h (mkNode _ _ _)).
  - intros super name c Hs Hn.
    destruct (nestedNames c !! (super, name)) as [l|] eqn:Hl.
    + by rewrite (NestedNameNode_create_hit _ _ (mkState h c) _ Hl).
    + rewrite (NestedNameNode_create_miss _ _ (mkState h c) Hl).
      by apply (well_built_new h (mkNode _ _ _)).
  - intros l node h' Hold Hadd. by eapply well_built_addNode.
Qed.

Lemma factories_keep_well_built_witness :
  let h := (NameNode_create "Sort" State_empty).1.(heap) in
  well_built (TemplateNode_create false (Some 0) nullptr h).1.
Proof.
  intros h.
  apply (factories_keep_well_built false h).
  - apply (well_built_new [] (mkNode KName false (NameNode "Sort")));
      [apply well_built_nil|done].
  - exists 0. split; [reflexivity|]. vm_compute. lia.
  - by left.
Defined.

(** ** Objects over time *)

Lemma Node_le_refl n : Node_le n n.
Proof.
  split; [done|]. split; [done|].
  destruct (fields n) eqn:Hf; try done. exists []. by rewrite app_nil_r.
Qed.

Lemma Node_le_trans n1 n2 n3 : Node_le n1 n2 → Node_le n2 n3 → Node_le n1 n3.
Proof.
  intros (Hk1 & Hr1 & H1) (Hk2 & Hr2 & H2).
  split; [congruence|]. split; [congruence|].
  destruct (fields n1) eqn:Hf1; try (rewrite H1 in H2; done).
  destruct H1 as [more1 H1]. rewrite H1 in H2. destruct H2 as [more2 H2].
  exists (more1 ++ more2). by rewrite app_assoc.
Qed.

Lemma step_keeps_objects d st st' l n :
  step d st st' → heap st !! l = Some n →
  ∃ n', heap st' !! l = Some n' ∧ Node_le n n'.
Proof.
  assert (∀ x, (new (heap st) x).1 !! l = Some n → heap st !! l = Some n →
               ∃ n', (new (heap st) x).1 !! l = Some n' ∧ Node_le n n') as Hnew.
  { intros x H _. exists n. split; [done|apply Node_le_refl]. }
  destruct 1; intros Hl; simpl;
    try (apply Hnew; [by apply new_lookup_old|done]).
  - destruct (names (context st) !! name) as [a|] eqn:Ha.
    + rewrite (NameNode_create_hit _ _ _ Ha). exists n. split; [done|apply Node_le_refl].
    + rewrite (NameNode_create_miss _ _ Ha). simpl. exists n.
      split; [by apply lookup_app_l_Some|apply Node_le_refl].
  - destruct (nestedNames (context st) !! (super, name)) as [a|] eqn:Ha.
    + rewrite (NestedNameNode_create_hit _ _ _ _ Ha). exists n.
      split; [done|apply Node_le_refl].
    + rewrite (NestedNameNode_create_miss _ _ _ Ha). simpl. exists n.
      split; [by apply lookup_app_l_Some|apply Node_le_refl].
  - unfold NodeArray_addNode in H. destruct this as [a|]; simpl in H; [|done].
    destruct (heap st !! a) as [na|] eqn:Ha; simpl in H; [|done].
    destruct (fields na) as [| | | |nodes| | |] eqn:Hf; try done.
    injection H as <-. destruct (decide (a = l)) as [->|Hne].
    + assert (na = n) as -> by congruence.
      eexists. split; [apply list_lookup_insert_eq; by eapply lookup_lt_Some|].
      split; [done|]. split; [done|]. rewrite Hf. by exists [node].
    + exists n. split; [by rewrite list_lookup_insert_ne|apply Node_le_refl].
Qed.

(** X18.  Whatever calls of the construction interface follow, an object
    stays at its address with its kind and its flag; an array keeps its
    elements in place and can only gain elements at the end; an object of
    any other class keeps its members for good. *)
Theorem steps_keep_objects d st st' l n :
  rtc (step d) st st' → heap st !! l = Some n →
  ∃ n', heap st' !! l = Some n' ∧ Node_le n n'.
Proof.
  intros Hsteps. revert n. induction Hsteps as [st|st st1 st' Hstep _ IH]; intros n Hl.
  - exists n. split; [done|apply Node_le_refl].
  - destruct (step_keeps_objects _ _ _ _ _ Hstep Hl) as (n1 & Hl1 & Hle1).
    destruct (IH _ Hl1) as (n' & Hl' & Hle').
    exists n'. split; [done|]. by eapply Node_le_trans.
Qed.

Lemma steps_keep_objects_witness :
  let st := mkState (NodeArray_create false []).1 Context_empty in
  let st1 := (NameNode_create "a" st).1 in
  ∃ h2 n', NodeArray_addNode (Some 0) (Some 1) (heap st1) = Some h2 ∧
           h2 !! 0 = Some n' ∧ Node_le (mkNode KNodeArray false (NodeArray [])) n'.
Proof.
  intros st st1. eexists. 
  destruct (steps_keep_objects false st
              (mkState (<[0 := mkNode KNodeArray false (NodeArray [Some 1])]> (heap st1))
                 (context st1))
              0 (mkNode KNodeArray false (NodeArray []))) as (n' & Hn' & Hle).
  - eapply rtc_l; [apply step_NameNode|].
    apply rtc_once. by apply (step_addNode false (Some 0) (Some 1)).
  - reflexivity.
  - exists n'. split; [reflexivity|]. split; [exact Hn'|exact Hle].
Defined.

(** ** Build, then print *)

Lemma writes_new h n m p out : writes h m p out → writes (h ++ [n]) m p out.
Proof. apply writes_deref_le, (deref_le_new h n). Qed.

Lemma writes_print_intro h l n d out :
  h !! l = Some n → overrides_printRight n = false →
  dispatch_printLeft (invoke h d) n "" = Some out →
  writes h print_ (Some l) out.
Proof.
  intros Hl Hov H. apply (writes_print_printLeft _ _ _ _ Hl Hov).
  by eapply writes_printLeft_intro.
Qed.

(** X19.  The object [FunctionNode::create] returns has kind [KFunction] and
    a cleared flag, and prints as what its function type's [printLeft], its
    name and its function type's [printRight] wrote in the store it was
    built in, in this order. *)
Theorem FunctionNode_create_prints h name funcType left nm right :
  writes h printLeft_ funcType left →
  writes h print_ name nm →
  writes h printRight_ funcType right →
  let r := FunctionNode_create name funcType h in
  writes r.1 print_ r.2 (left +:+ nm +:+ right) ∧
  Node_kind <$> deref r.1 r.2 = Some KFunction ∧
  Node_hasRight <$> deref r.1 r.2 = Some false.
Proof.
  intros HL HN HR r.
  set (n := mkNode KFunction false (FunctionNode name funcType)).
  assert (r.1 !! length h = Some n) as Hl by apply list_lookup_middle, eq_refl.
  assert (deref r.1 r.2 = Some n) as Hd by exact Hl.
  split; [|by rewrite Hd].
  destruct (writes_invoke _ _ _ _ (writes_new h n _ _ _ HL)) as [d1 H1].
  destruct (writes_invoke _ _ _ _ (writes_new h n _ _ _ HN)) as [d2 H2].
  destruct (writes_invoke _ _ _ _ (writes_new h n _ _ _ HR)) as [d3 H3].
  apply (writes_print_intro _ _ _ (Nat.max (Nat.max d1 d2) d3) _ Hl eq_refl).
  unfold dispatch_printLeft, FunctionNode_printLeft. cbn [fields n].
  rewrite (H1 _ "") by lia. cbn [mbind option_bind].
  rewrite H2 by lia. cbn [mbind option_bind]. rewrite H3 by lia.
  f_equal. apply append_assoc.
Qed.

Lemma FunctionNode_create_prints_witness :
  let h := [mkNode KOtherType true (TypeNode "int " "(char)");
            mkNode KName false (NameNode "Ord")] in
  writes (FunctionNode_create (Some 1) (Some 0) h).1 print_
    (FunctionNode_create (Some 1) (Some 0) h).2 "int Ord(char)".
Proof.
  intros h.
  apply (FunctionNode_create_prints h (Some 1) (Some 0) "int " "Ord" "(char)").
  - by exists 1.
  - by exists 2.
  - by exists 1.
Defined.

(** X20.  The object [TemplateNode::create] returns for a name and a
    parameter array that both print has kind [KTemplateNode] and prints as
    the name, [<], the parameters and [>]. *)
Theorem TemplateNode_create_prints d h name a n ps :
  writes h print_ name n →
  writes h print_ (Some a) ps →
  let r := TemplateNode_create d name (Some a) h in
  writes r.1 print_ r.2 (n +:+ "<" +:+ ps +:+ ">") ∧
  Node_kind <$> deref r.1 r.2 = Some KTemplateNode.
Proof.
  intros HN HP r.
  set (x := mkNode KTemplateNode d (TemplateNode name (Some a))).
  assert (r.1 !! length h = Some x) as Hl by apply list_lookup_middle, eq_refl.
  assert (deref r.1 r.2 = Some x) as Hd by exact Hl.
  split; [|by rewrite Hd].
  destruct (writes_invoke _ _ _ _ (writes_new h x _ _ _ HN)) as [d1 H1].
  destruct (writes_invoke _ _ _ _ (writes_new h x _ _ _ HP)) as [d2 H2].
  apply (writes_print_intro _ _ _ (Nat.max d1 d2) _ Hl eq_refl).
  unfold dispatch_printLeft, TemplateNode_printLeft. cbn [fields x].
  rewrite (H1 _ "") by lia. cbn [mbind option_bind].
  rewrite H2 by lia. cbn [mbind option_bind].
  unfold put. by rewrite !append_assoc.
Qed.

Lemma TemplateNode_create_prints_witness :
  let h := [mkNode KName false (NameNode "TArray");
            mkNode KOtherType false (TypeNode "double" "");
            mkNode KNodeArray false (NodeArray [Some 1])] in
  writes (TemplateNode_create false (Some 0) (Some 2) h).1 print_
    (TemplateNode_create false (Some 0) (Some 2) h).2 "TArray<double>".
Proof.
  intros h.
  apply (TemplateNode_create_prints false h (Some 0) 2 "TArray" "double").
  - by exists 2.
  - by exists 4.
Defined.

(** X21.  [ConversionOperatorNode::create] leaves the context it is handed
    as it found it; the object it returns has kind [KConversionOperator] and
    prints as [operator ] followed by the text of the type. *)
Theorem ConversionOperatorNode_create_prints d st type t :
  writes (heap st) print_ type t →
  let r := ConversionOperatorNode_create d type st in
  context r.1 = context st ∧
  writes (heap r.1) print_ r.2 ("operator " +:+ t) ∧
  Node_kind <$> deref (heap r.1) r.2 = Some KConversionOperator.
Proof.
  intros HT r. split; [done|].
  set (x := mkNode KConversionOperator d (ConversionOperatorNode type)).
  assert (heap r.1 !! length (heap st) = Some x) as Hl
    by apply list_lookup_middle, eq_refl.
  assert (deref (heap r.1) r.2 = Some x) as Hd by exact Hl.
  split; [|by rewrite Hd].
  destruct (writes_invoke _ _ _ _ (writes_new (heap st) x _ _ _ HT)) as [d1 H1].
  apply (writes_print_intro _ _ _ d1 _ Hl eq_refl).
  unfold dispatch_printLeft, ConversionOperatorNode_printLeft. cbn [fields x].
  by apply H1.
Qed.

Lemma ConversionOperatorNode_create_prints_witness :
  let st := mkState [mkNode KOtherType false (TypeNode "char*" "")] Context_empty in
  writes (heap (ConversionOperatorNode_create true (Some 0) st).1) print_
    (ConversionOperatorNode_create true (Some 0) st).2 "operator char*".
Proof.
  intros st.
  apply (ConversionOperatorNode_create_prints true st (Some 0) "char*").
  by exists 2.
Defined.

(** ** Interned names, printed *)

Lemma NameNode_print h l n name depth s :
  h !! l = Some n → fields n = NameNode name →
  print h (S (S depth)) (Some l) s = Some (s +:+ name).
Proof.
  intros Hl Hf. apply (print_of_printLeft _ _ _ _ _ _ Hl).
  - intros ??. by rewrite Hf.
  - intros ??. by rewrite Hf.
  - rewrite (printLeft_unfold _ _ _ _ _ Hl). unfold dispatch_printLeft. by rewrite Hf.
Qed.

(** X22.  In a context built through the construction interface, the
    pointer [NameNode::create] returns for a string prints as that string,
    whether the name was interned before or not. *)
Theorem NameNode_create_then_str d st s st' p :
  rtc (step d) State_empty st →
  NameNode_create s st = (st', p) →
  Node_str (heap st') 2 p = Some s.
Proof.
  intros Hreach Hc.
  pose proof (State_wf_reachable _ _ Hreach) as Hwf.
  destruct (NameNode_create_carries _ _ _ _ Hwf Hc) as (l & -> & Hl).
  destruct (heap st' !! l) as [n|] eqn:Hn; [|done]. injection Hl as Hf.
  unfold Node_str. by rewrite (NameNode_print _ _ _ _ 0 "" Hn Hf).
Qed.

Lemma NameNode_create_then_str_witness :
  let st := (NameNode_create "Move" (NameNode_create "Copy" State_empty).1).1 in
  Node_str (heap (NameNode_create "Copy" st).1) 2 (NameNode_create "Copy" st).2
    = Some "Copy".
Proof.
  intros st.
  apply (NameNode_create_then_str false st "Copy").
  - eapply rtc_l; [apply (step_NameNode false "Copy")|].
    apply rtc_once, step_NameNode.
  - reflexivity.
Defined.

Lemma deref_le_NestedNameNode_create super name st :
  deref_le (heap st) (heap (NestedNameNode_create super name st).1).
Proof.
  destruct (nestedNames (context st) !! (super, name)) as [l|] eqn:Hl.
  - rewrite (NestedNameNode_create_hit _ _ _ _ Hl). by intros p n.
  - rewrite (NestedNameNode_create_miss _ _ _ Hl). apply (deref_le_new (heap st)).
Qed.

(** X23.  In a context built through the construction interface, the object
    [NestedNameNode::create] returns for two pointers hands these two
    pointers back through [super] and [name], and prints as the text of the
    first, [::] and the text of the second, whether the pair was interned
    before or not. *)
Theorem NestedNameNode_create_prints d st super name st' p a b :
  rtc (step d) State_empty st →
  NestedNameNode_create super name st = (st', p) →
  writes (heap st) print_ super a →
  writes (heap st) print_ name b →
  writes (heap st') print_ p (a +:+ "::" +:+ b) ∧
  NestedNameNode_super <$> deref (heap st') p = Some super ∧
  NestedNameNode_name <$> deref (heap st') p = Some name.
Proof.
  intros Hreach Hc Ha Hb.
  pose proof (State_wf_reachable _ _ Hreach) as Hwf.
  destruct (NestedNameNode_create_carries _ _ _ _ _ Hwf Hc) as (l & -> & Hl).
  destruct (heap st' !! l) as [n|] eqn:Hn; [|done]. injection Hl as Hf.
  pose proof (deref_le_NestedNameNode_create super name st) as Hle.
  rewrite Hc in Hle. simpl in Hle.
  split.
  - destruct (writes_invoke _ _ _ _ (writes_deref_le _ _ _ _ _ Hle Ha)) as [d1 H1].
    destruct (writes_invoke _ _ _ _ (writes_deref_le _ _ _ _ _ Hle Hb)) as [d2 H2].
    apply (writes_print_intro _ _ _ (Nat.max d1 d2) _ Hn).
    { unfold overrides_printRight. by rewrite Hf. }
    unfold dispatch_printLeft, NestedNameNode_printLeft. rewrite Hf.
    rewrite (H1 _ "") by lia. cbn [mbind option_bind].
    rewrite H2 by lia. unfold put. f_equal. by rewrite !append_assoc.
  - simpl. rewrite Hn. simpl.
    unfold NestedNameNode_super, NestedNameNode_name. by rewrite Hf.
Qed.

Lemma NestedNameNode_create_prints_witness :
  let st := (NameNode_create "Free" (NameNode_create "TObject" State_empty).1).1 in
  let r := NestedNameNode_create (Some 0) (Some 1) st in
  writes (heap r.1) print_ r.2 "TObject::Free" ∧
  NestedNameNode_super <$> deref (heap r.1) r.2 = Some (Some 0) ∧
  NestedNameNode_name <$> deref (heap r.1) r.2 = Some (Some 1).
Proof.
  intros st r.
  apply (NestedNameNode_create_prints false st (Some 0) (Some 1) r.1 r.2
           "TObject" "Free").
  - eapply rtc_l; [apply (step_NameNode false "TObject")|].
    apply rtc_once, step_NameNode.
  - reflexivity.
  - by exists 2.
  - by exists 2.
Defined.

(** X24.  A second request for what the first request returned costs
    nothing: asked again for the same string, or for the same pair of
    pointers, the factory returns the same pointer and leaves the store and
    the context exactly as they were. *)
Theorem interning_is_idempotent :
  (∀ s st st1 p,
     NameNode_create s st = (st1, p) → NameNode_create s st1 = (st1, p)) ∧
  (∀ a b st st1 p,
     NestedNameNode_create a b st = (st1, p) →
     NestedNameNode_create a b st1 = (st1, p)).
Proof.
  split.
  - intros s st st1 p H.
    destruct (NameNode_create_registered _ _ _ _ H) as (l & -> & Hl).
    by apply NameNode_create_hit.
  - intros a b st st1 p H.
    destruct (NestedNameNode_create_registered _ _ _ _ _ H) as (l & -> & Hl).
    by apply NestedNameNode_create_hit.
Qed.

Lemma interning_is_idempotent_witness :
  let r := NameNode_create "Now" State_empty in
  NameNode_create "Now" r.1 = r ∧ length (heap r.1) = 1.
Proof.
  intros r. split; [|reflexivity].
  apply (proj1 interning_is_idempotent "Now" State_empty r.1 r.2). reflexivity.
Defined.
